(** * memfs: an in-memory file store, embedded and verified

    Shallow embedding of the Go package [memfs] (files [memfs.go],
    the file-handle source with [contentReadWriteSeekerImpl], [fsNode] and
    [File], and [fileInfo.go]).

    Go pointers to [fsNode] become locations into an explicit heap, so that
    a handle and the tree really share one node.  A Go call either returns
    its values or panics; both outcomes are kept.  The mutexes of the source
    are not modelled: every operation is run to completion, one at a time. *)

From stdpp Require Import gmap strings list sorting.
From Stdlib Require Import ZArith Ascii Lia.
From Stdlib.Strings Require Import Byte.

Local Open Scope string_scope.
Local Open Scope list_scope.
Local Open Scope Z_scope.

(** ** Outcomes of a Go call *)

Inductive panic : Type :=
  | NilDereference        (* invalid memory address or nil pointer dereference *)
  | SliceBoundsOutOfRange (* slice bounds out of range *)
  | MakeSliceLenOutOfRange (* makeslice: len out of range *)
  | NilMapAssignment.     (* assignment to entry in nil map *)

Inductive result (A : Type) : Type :=
  | Ret (a : A)
  | Panic (p : panic)
  | OutOfFuel. (* a loop of the source was cut off by the model's bound *)
Arguments Ret {A} a.
Arguments Panic {A} p.
Arguments OutOfFuel {A}.

#[global] Instance result_ret : MRet result := fun A a => Ret a.
#[global] Instance result_bind : MBind result := fun A B k m =>
  match m with
  | Ret a => k a
  | Panic p => Panic p
  | OutOfFuel => OutOfFuel
  end.

(** ** Errors

    The sentinels are the values [errors.Is] classifies: [fs.ErrInvalid]
    (the same variable as [os.ErrInvalid]), [fs.ErrNotExist], [fs.ErrExist],
    [fs.ErrClosed] and [io.EOF].  [Errorf msg arg s] stands for
    [fmt.Errorf("<msg>: %s: %w", arg, s)]. *)

Inductive sentinel : Type :=
  | ErrInvalid | ErrNotExist | ErrExist | ErrClosed | EOF.

Inductive error : Type :=
  | Bare (s : sentinel)
  | Errorf (msg arg : string) (s : sentinel).

Definition unwrap (e : error) : sentinel :=
  match e with Bare s => s | Errorf _ _ s => s end.

#[global] Instance sentinel_eq_dec : EqDecision sentinel.
Proof. solve_decision. Defined.

Definition errors_Is (e : option error) (s : sentinel) : bool :=
  match e with
  | Some e => bool_decide (unwrap e = s)
  | None => false
  end.

(** ** The parts of Go's standard library the package calls

    Strings are byte sequences, as in Go.  Go's [int] is 64 bits wide. *)

Definition len {A} (l : list A) : Z := Z.of_nat (length l).

Definition wrap_int (z : Z) : Z := (z + 2 ^ 63) `mod` 2 ^ 64 - 2 ^ 63.
Definition max_int : Z := 2 ^ 63 - 1.

Definition Separator : ascii := "/"%char.
Definition is_sep (a : ascii) : bool := Ascii.eqb a Separator.

(** [strings.Split(s, sep)] for a one-byte separator. *)
Fixpoint strings_Split (s : string) (sep : ascii) : list string :=
  match s with
  | EmptyString => [EmptyString]
  | String a s' =>
      if Ascii.eqb a sep then EmptyString :: strings_Split s' sep
      else match strings_Split s' sep with
           | h :: t => String a h :: t
           | [] => [String a EmptyString]
           end
  end.

(** [strings.Join(parts, sep)]. *)
Definition strings_Join (parts : list string) (sep : string) : string :=
  String.concat sep parts.

(** [strings.Contains(s, c)] for a one-byte needle. *)
Fixpoint strings_Contains (s : string) (c : ascii) : bool :=
  match s with
  | EmptyString => false
  | String a s' => Ascii.eqb a c || strings_Contains s' c
  end.

(** [strings.Replace(s, old, new, -1)] for a one-byte [old]. *)
Fixpoint strings_ReplaceAll (s : string) (old : ascii) (new : string) : string :=
  match s with
  | EmptyString => EmptyString
  | String a s' =>
      if Ascii.eqb a old then new +:+ strings_ReplaceAll s' old new
      else String a (strings_ReplaceAll s' old new)
  end.

Definition byte_in (lo hi : N) (a : ascii) : bool :=
  ((lo <=? N_of_ascii a) && (N_of_ascii a <=? hi))%N.

(** First byte of a UTF-8 sequence: the number of continuation bytes and the
    range accepted for the first of them. *)
Definition utf8_first (a : ascii) : option (nat * N * N) :=
  if byte_in 0x00 0x7F a then Some (0%nat, 0x00, 0xFF)%N
  else if byte_in 0xC2 0xDF a then Some (1%nat, 0x80, 0xBF)%N
  else if byte_in 0xE0 0xE0 a then Some (2%nat, 0xA0, 0xBF)%N
  else if byte_in 0xE1 0xEC a then Some (2%nat, 0x80, 0xBF)%N
  else if byte_in 0xED 0xED a then Some (2%nat, 0x80, 0x9F)%N
  else if byte_in 0xEE 0xEF a then Some (2%nat, 0x80, 0xBF)%N
  else if byte_in 0xF0 0xF0 a then Some (3%nat, 0x90, 0xBF)%N
  else if byte_in 0xF1 0xF3 a then Some (3%nat, 0x80, 0xBF)%N
  else if byte_in 0xF4 0xF4 a then Some (3%nat, 0x80, 0x8F)%N
  else None.

Definition utf8_cont (a : ascii) : bool := byte_in 0x80 0xBF a.

(** [utf8.ValidString]. *)
Fixpoint utf8_ValidString (s : string) : bool :=
  match s with
  | EmptyString => true
  | String a s1 =>
      match utf8_first a with
      | None => false
      | Some (O, _, _) => utf8_ValidString s1
      | Some (1%nat, lo, hi) =>
          match s1 with
          | String b s2 => byte_in lo hi b && utf8_ValidString s2
          | _ => false
          end
      | Some (2%nat, lo, hi) =>
          match s1 with
          | String b (String c s3) =>
              byte_in lo hi b && utf8_cont c && utf8_ValidString s3
          | _ => false
          end
      | Some (_, lo, hi) =>
          match s1 with
          | String b (String c (String d s4)) =>
              byte_in lo hi b && utf8_cont c && utf8_cont d && utf8_ValidString s4
          | _ => false
          end
      end
  end.

(** [filepath.IsAbs] on Unix. *)
Definition filepath_IsAbs (path : string) : bool :=
  match path with
  | String a _ => is_sep a
  | EmptyString => false
  end.

(** The element loop of [filepath.Clean]; [out] is the output so far, last
    element first. *)
Fixpoint clean_elements (rooted : bool) (elems out : list string) : list string :=
  match elems with
  | [] => out
  | e :: rest =>
      if String.eqb e EmptyString || String.eqb e "." then clean_elements rooted rest out
      else if String.eqb e ".." then
        match out with
        | top :: out' =>
            if String.eqb top ".." then clean_elements rooted rest (".." :: out)
            else clean_elements rooted rest out'
        | [] =>
            if rooted then clean_elements rooted rest []
            else clean_elements rooted rest [".."]
        end
      else clean_elements rooted rest (e :: out)
  end.

(** [filepath.Clean] on Unix. *)
Definition filepath_Clean (path : string) : string :=
  if String.eqb path EmptyString then "."
  else
    let rooted := filepath_IsAbs path in
    let out := rev (clean_elements rooted (strings_Split path Separator) []) in
    if rooted then String Separator (strings_Join out "/")
    else match out with
         | [] => "."
         | _ => strings_Join out "/"
         end.

(** [filepath.Join]: empty elements are ignored, the rest is joined with the
    separator and cleaned. *)
Definition filepath_Join (elems : list string) : string :=
  match filter (fun e => negb (String.eqb e EmptyString)) elems with
  | [] => EmptyString
  | es => filepath_Clean (strings_Join es "/")
  end.

(** [filepath.Abs] with the process working directory [wd]. *)
Definition filepath_Abs (wd path : string) : string :=
  if filepath_IsAbs path then filepath_Clean path
  else filepath_Join [wd; path].

(** [filepath.Split]: the path up to and including the last separator, and
    what follows it. *)
Fixpoint filepath_Split (path : string) : string * string :=
  match path with
  | EmptyString => (EmptyString, EmptyString)
  | String a s' =>
      let '(d, f) := filepath_Split s' in
      if is_sep a then (String a d, f)
      else if String.eqb d EmptyString then (EmptyString, String a f)
      else (String a d, f)
  end.

#[global] Instance string_leb_dec :
  RelDecision (fun a b : string => Is_true (String.leb a b)).
Proof. intros a b. apply _. Defined.

(** [sort.Strings]. *)
Definition sort_Strings (l : list string) : list string :=
  merge_sort (fun a b : string => Is_true (String.leb a b)) l.

(** [copy(dst, src)]: the updated destination and the number of elements
    copied. *)
Definition go_copy {A} (dst src : list A) : list A * Z :=
  let n := Nat.min (length dst) (length src) in
  (take n src ++ drop n dst, Z.of_nat n).

(** [s[i:]]. *)
Definition slice_from {A} (s : list A) (i : Z) : result (list A) :=
  if (i <? 0) || (len s <? i) then Panic SliceBoundsOutOfRange
  else Ret (drop (Z.to_nat i) s).

(** [s[0:n]] for [n] within the length. *)
Definition slice_to {A} (s : list A) (n : Z) : result (list A) :=
  if (n <? 0) || (len s <? n) then Panic SliceBoundsOutOfRange
  else Ret (take (Z.to_nat n) s).

(** [make([]byte, l, l)]. *)
Definition go_make (l : Z) : result (list byte) :=
  if l <? 0 then Panic MakeSliceLenOutOfRange
  else Ret (replicate (Z.to_nat l) x00).

(** [copy(dst[i:], src)], seen from [dst]. *)
Definition copy_at (dst : list byte) (i : Z) (src : list byte) : result (list byte) :=
  tl ← slice_from dst i;
  Ret (take (Z.to_nat i) dst ++ fst (go_copy tl src)).

(** ** Nodes and the heap

    [*fsNode] is a location or nil.  The [entries] map is nil for a file:
    its presence is what makes a node a directory.  [World] holds the [FS]
    struct ([root], [nextFD]), the memory its nodes live in, and the two
    things the package reads from its process: the working directory and
    the clock. *)

Definition loc := nat.
Definition ptr := option loc.

Record fsNode := mkNode {
  name : string;
  perm : Z;
  modified : Z;
  content : list byte;
  entries : option (gmap string loc);
  unlinked : bool
}.

Record World := mkWorld {
  heap : gmap loc fsNode;
  root : ptr;
  nextFD : Z;
  wd : string;
  clock : Z
}.

Definition with_heap (w : World) (h : gmap loc fsNode) : World :=
  mkWorld h (root w) (nextFD w) (wd w) (clock w).

Definition set_content (n : fsNode) (c : list byte) : fsNode :=
  mkNode (name n) (perm n) (modified n) c (entries n) (unlinked n).
Definition set_unlinked (n : fsNode) (b : bool) : fsNode :=
  mkNode (name n) (perm n) (modified n) (content n) (entries n) b.
Definition set_entries (n : fsNode) (m : option (gmap string loc)) : fsNode :=
  mkNode (name n) (perm n) (modified n) (content n) m (unlinked n).

(** Reading through a pointer. *)
Definition deref (w : World) (p : ptr) : result fsNode :=
  match p with
  | None => Panic NilDereference
  | Some l =>
      match heap w !! l with
      | Some n => Ret n
      | None => Panic NilDereference
      end
  end.

(** Writing through a pointer: the node is replaced by its image under [f]. *)
Definition modify (w : World) (p : ptr) (f : fsNode -> fsNode) : result World :=
  n ← deref w p;
  match p with
  | Some l => Ret (with_heap w (<[l := f n]> (heap w)))
  | None => Panic NilDereference
  end.

(** [&fsNode{...}]: a new node at an unused location. *)
Definition alloc (w : World) (n : fsNode) : World * loc :=
  let l := fresh (dom (heap w)) in
  (with_heap w (<[l := n]> (heap w)), l).

Definition isDir (n : fsNode) : bool :=
  match entries n with Some _ => true | None => false end.

(** [n.entries[key]], with Go's reading of a nil map. *)
Definition lookup_entry (n : fsNode) (key : string) : ptr :=
  match entries n with
  | Some m => m !! key
  | None => None
  end.

(** [len(n.entries)]. *)
Definition len_entries (n : fsNode) : Z :=
  match entries n with
  | Some m => Z.of_nat (size m)
  | None => 0
  end.

(** [n.entries[key] = l]. *)
Definition assign_entry (w : World) (p : ptr) (key : string) (l : loc) : result World :=
  n ← deref w p;
  match entries n with
  | Some m => modify w p (fun n => set_entries n (Some (<[key := l]> m)))
  | None => Panic NilMapAssignment
  end.

(** [delete(n.entries, key)]; deleting from a nil map does nothing. *)
Definition delete_entry (w : World) (p : ptr) (key : string) : result World :=
  modify w p (fun n => set_entries n (delete key <$> entries n)).

Definition getContent (w : World) (p : ptr) : result (list byte) :=
  n ← deref w p; Ret (content n).

Definition setContent (w : World) (p : ptr) (c : list byte) : result World :=
  modify w p (fun n => set_content n c).

Definition getEntryNames (w : World) (p : ptr) : result (list string) :=
  n ← deref w p;
  match entries n with
  | Some m => Ret (sort_Strings (map fst (map_to_list m)))
  | None => Ret []
  end.

(** ** The content engine *)

Record contentReadWriteSeekerImpl := mkCrws {
  owner : ptr;
  pos : Z
}.

Definition SeekStart : Z := 0.
Definition SeekCurrent : Z := 1.
Definition SeekEnd : Z := 2.

Definition crws_read (w : World) (c : contentReadWriteSeekerImpl) (p : list byte)
  : result (contentReadWriteSeekerImpl * list byte * Z * option error) :=
  content ← getContent w (owner c);
  if len p <=? pos c then Ret (c, p, 0, Some (Bare EOF))
  else
    tl ← slice_from content (pos c);
    let '(p', n) := go_copy p tl in
    Ret (mkCrws (owner c) (pos c + n), p', n, None).

Definition crws_Read (w : World) (c : option contentReadWriteSeekerImpl) (p : list byte)
  : result (option contentReadWriteSeekerImpl * list byte * Z * option error) :=
  match c with
  | None => Panic NilDereference
  | Some c =>
      _ ← deref w (owner c);
      '(c', p', n, e) ← crws_read w c p;
      Ret (Some c', p', n, e)
  end.

Definition crws_ReadAt (w : World) (c : option contentReadWriteSeekerImpl)
    (p : list byte) (off : Z)
  : result (option contentReadWriteSeekerImpl * list byte * Z * option error) :=
  if off <? 0 then Ret (c, p, 0, Some (Bare ErrInvalid))
  else match c with
       | None => Panic NilDereference
       | Some c =>
           _ ← deref w (owner c);
           '(c', p', n, e) ← crws_read w (mkCrws (owner c) off) p;
           Ret (Some c', p', n, e)
       end.

Definition crws_Seek (w : World) (c : option contentReadWriteSeekerImpl)
    (offset whence : Z)
  : result (option contentReadWriteSeekerImpl * Z * option error) :=
  match c with
  | None => Panic NilDereference
  | Some c =>
      _ ← deref w (owner c);
      content ← getContent w (owner c);
      let offs := offset in
      let newPos :=
        if whence =? SeekStart then offs
        else if whence =? SeekCurrent then wrap_int (pos c + offs)
        else if whence =? SeekEnd then wrap_int (len content + offs)
        else 0 in
      if newPos <? 0 then Ret (Some c, 0, Some (Bare ErrInvalid))
      else Ret (Some (mkCrws (owner c) newPos), newPos, None)
  end.

Definition crws_write (w : World) (c : contentReadWriteSeekerImpl) (p : list byte)
  : result (World * contentReadWriteSeekerImpl * Z * option error) :=
  content ← getContent w (owner c);
  newContent ←
    (if len content <=? pos c then
       let l := wrap_int (pos c + len p) in
       grown ← go_make l;
       Ret (fst (go_copy grown content))
     else if len content <? wrap_int (pos c + len p) then
       let l := wrap_int (pos c + len p) in
       grown ← go_make l;
       Ret (fst (go_copy grown content))
     else Ret content);
  newContent ← copy_at newContent (pos c) p;
  w' ← setContent w (owner c) newContent;
  Ret (w', mkCrws (owner c) (wrap_int (pos c + len p)), len p, None).

Definition crws_Write (w : World) (c : option contentReadWriteSeekerImpl) (p : list byte)
  : result (World * option contentReadWriteSeekerImpl * Z * option error) :=
  match c with
  | None => Panic NilDereference
  | Some c =>
      _ ← deref w (owner c);
      '(w', c', n, e) ← crws_write w c p;
      Ret (w', Some c', n, e)
  end.

Definition crws_WriteAt (w : World) (c : option contentReadWriteSeekerImpl)
    (p : list byte) (off : Z)
  : result (World * option contentReadWriteSeekerImpl * Z * option error) :=
  if off <? 0 then Ret (w, c, 0, Some (Bare ErrInvalid))
  else match c with
       | None => Panic NilDereference
       | Some c =>
           _ ← deref w (owner c);
           '(w', c', n, e) ← crws_write w (mkCrws (owner c) off) p;
           Ret (w', Some c', n, e)
       end.

(** ** Open flags ([os.O_*] with their Linux values) *)

Definition O_RDONLY : Z := 0.
Definition O_WRONLY : Z := 1.
Definition O_RDWR : Z := 2.
Definition O_CREATE : Z := 0x40.
Definition O_EXCL : Z := 0x80.
Definition O_TRUNC : Z := 0x200.
Definition O_APPEND : Z := 0x400.

Definition isSet (f mask : Z) : bool := Z.land f mask =? mask.
Definition isReadOnly (f : Z) : bool := f =? O_RDONLY.
Definition isWriteOnly (f : Z) : bool := isSet f O_WRONLY.
Definition isReadWrite (f : Z) : bool := isSet f O_RDWR.
Definition canRead (f : Z) : bool := isReadOnly f || isReadWrite f.
Definition canWrite (f : Z) : bool := isWriteOnly f || isReadWrite f.
Definition isAppend (f : Z) : bool := isSet f O_APPEND.
Definition isCreate (f : Z) : bool := isSet f O_CREATE.
Definition isCreateMustNotExist (f : Z) : bool := isSet f O_EXCL.
Definition isTruncating (f : Z) : bool := isSet f O_TRUNC.

(** ** Metadata views *)

Record FileInfo := mkFileInfo { FileInfo_node : ptr }.
Record DirEntry := mkDirEntry { DirEntry_node : ptr }.

Definition FileInfo_Name (w : World) (fi : FileInfo) : result string :=
  n ← deref w (FileInfo_node fi); Ret (name n).

Definition FileInfo_Size (w : World) (fi : FileInfo) : result Z :=
  n ← deref w (FileInfo_node fi);
  if negb (unlinked n) then
    if negb (isDir n) then Ret (len (content n)) else Ret 0
  else Ret 0.

Definition FileInfo_Mode (w : World) (fi : FileInfo) : result Z :=
  n ← deref w (FileInfo_node fi); Ret (perm n).

Definition FileInfo_ModTime (w : World) (fi : FileInfo) : result Z :=
  n ← deref w (FileInfo_node fi); Ret (modified n).

Definition FileInfo_IsDir (w : World) (fi : FileInfo) : result bool :=
  n ← deref w (FileInfo_node fi); Ret (isDir n).

(** ** File handles *)

Record File := mkFile {
  node : ptr;
  flag : Z;
  fd : Z;
  crws : option contentReadWriteSeekerImpl;
  closed : bool;
  indexReadDir : Z;
  indexReaddir : Z;
  indexReaddirnames : Z
}.

Definition with_crws (f : File) (c : option contentReadWriteSeekerImpl) : File :=
  mkFile (node f) (flag f) (fd f) c (closed f)
         (indexReadDir f) (indexReaddir f) (indexReaddirnames f).
Definition with_closed (f : File) (b : bool) : File :=
  mkFile (node f) (flag f) (fd f) (crws f) b
         (indexReadDir f) (indexReaddir f) (indexReaddirnames f).
Definition with_indexReadDir (f : File) (i : Z) : File :=
  mkFile (node f) (flag f) (fd f) (crws f) (closed f)
         i (indexReaddir f) (indexReaddirnames f).
Definition with_indexReaddir (f : File) (i : Z) : File :=
  mkFile (node f) (flag f) (fd f) (crws f) (closed f)
         (indexReadDir f) i (indexReaddirnames f).
Definition with_indexReaddirnames (f : File) (i : Z) : File :=
  mkFile (node f) (flag f) (fd f) (crws f) (closed f)
         (indexReadDir f) (indexReaddir f) i.

Definition File_Name (w : World) (f : File) : result string :=
  n ← deref w (node f); Ret (name n).

Definition File_Stat (w : World) (f : File) : result (FileInfo * option error) :=
  n ← deref w (node f);
  if unlinked n then
    Ret (mkFileInfo None, Some (Errorf "file unlinked" (name n) ErrInvalid))
  else Ret (mkFileInfo (node f), None).

Definition File_Close (w : World) (f : File) : result (File * option error) :=
  if closed f then
    nm ← File_Name w f;
    Ret (f, Some (Errorf "file closed" nm ErrClosed))
  else Ret (with_closed f true, None).

Definition File_Read (w : World) (f : File) (p : list byte)
  : result (File * list byte * Z * option error) :=
  n ← deref w (node f);
  if unlinked n then Ret (f, p, 0, Some (Errorf "file unlinked" (name n) ErrInvalid))
  else if negb (canRead (flag f)) then
    Ret (f, p, 0, Some (Errorf "cannot read" (name n) ErrInvalid))
  else if closed f then Ret (f, p, 0, Some (Errorf "file closed" (name n) ErrClosed))
  else
    '(c', p', k, e) ← crws_Read w (crws f) p;
    Ret (with_crws f c', p', k, e).

Definition File_ReadAt (w : World) (f : File) (p : list byte) (off : Z)
  : result (File * list byte * Z * option error) :=
  n ← deref w (node f);
  if unlinked n then Ret (f, p, 0, Some (Errorf "file unlinked" (name n) ErrInvalid))
  else if negb (canRead (flag f)) then
    Ret (f, p, 0, Some (Errorf "cannot read" (name n) ErrInvalid))
  else if closed f then Ret (f, p, 0, Some (Errorf "file closed" (name n) ErrClosed))
  else
    '(c', p', k, e) ← crws_ReadAt w (crws f) p off;
    Ret (with_crws f c', p', k, e).

Definition File_Seek (w : World) (f : File) (offset whence : Z)
  : result (File * Z * option error) :=
  n ← deref w (node f);
  if unlinked n then Ret (f, 0, Some (Errorf "file unlinked" (name n) ErrInvalid))
  else if closed f then Ret (f, 0, Some (Errorf "file closed" (name n) ErrClosed))
  else
    '(c', k, e) ← crws_Seek w (crws f) offset whence;
    Ret (with_crws f c', k, e).

Definition File_Write (w : World) (f : File) (p : list byte)
  : result (World * File * Z * option error) :=
  n ← deref w (node f);
  if unlinked n then Ret (w, f, 0, Some (Errorf "file unlinked" (name n) ErrInvalid))
  else if negb (canWrite (flag f)) then
    Ret (w, f, 0, Some (Errorf "cannot write" (name n) ErrInvalid))
  else if closed f then Ret (w, f, 0, Some (Errorf "file closed" (name n) ErrClosed))
  else
    '(w', c', k, e) ← crws_Write w (crws f) p;
    Ret (w', with_crws f c', k, e).

Definition File_WriteAt (w : World) (f : File) (p : list byte) (off : Z)
  : result (World * File * Z * option error) :=
  n ← deref w (node f);
  if unlinked n then Ret (w, f, 0, Some (Errorf "file unlinked" (name n) ErrInvalid))
  else if negb (canWrite (flag f)) then
    Ret (w, f, 0, Some (Errorf "cannot write" (name n) ErrInvalid))
  else if isAppend (flag f) then
    Ret (w, f, 0, Some (Errorf "append only file" (name n) ErrInvalid))
  else if closed f then Ret (w, f, 0, Some (Errorf "file closed" (name n) ErrClosed))
  else
    '(w', c', k, e) ← crws_WriteAt w (crws f) p off;
    Ret (w', with_crws f c', k, e).

(** The tail shared by the three listing methods, from the test on [n]
    onwards: [all] is the view built from the sorted names, [index] the
    view's resumable index.  Returns the new index and the page. *)
Definition page {A} (all : list A) (names : list string) (index n : Z)
  : result (Z * list A) :=
  if (n <? 0) || (len names <=? n) then Ret (index, all)
  else
    rest ← slice_from all index;
    if n <? len rest then
      first ← slice_to rest n;
      Ret (index + n, first)
    else Ret (0, rest).

(** The guards shared by the three listing methods. *)
Definition listing_guard (w : World) (f : File) : result (fsNode * option error) :=
  n ← deref w (node f);
  if unlinked n then Ret (n, Some (Errorf "file unlinked" (name n) ErrInvalid))
  else if closed f then Ret (n, Some (Errorf "file closed" (name n) ErrClosed))
  else if negb (isDir n) then Ret (n, Some (Errorf "not a directoru" (name n) ErrInvalid))
  else Ret (n, None).

Definition File_ReadDir (w : World) (f : File) (n : Z)
  : result (File * list DirEntry * option error) :=
  '(nd, e) ← listing_guard w f;
  match e with
  | Some e => Ret (f, [], Some e)
  | None =>
      names ← getEntryNames w (node f);
      let dirEntries := map (fun nm => mkDirEntry (lookup_entry nd nm)) names in
      '(i, out) ← page dirEntries names (indexReadDir f) n;
      Ret (with_indexReadDir f i, out, None)
  end.

Definition File_Readdir (w : World) (f : File) (n : Z)
  : result (File * list FileInfo * option error) :=
  '(nd, e) ← listing_guard w f;
  match e with
  | Some e => Ret (f, [], Some e)
  | None =>
      names ← getEntryNames w (node f);
      let fileInfos := map (fun nm => mkFileInfo (lookup_entry nd nm)) names in
      '(i, out) ← page fileInfos names (indexReaddir f) n;
      Ret (with_indexReaddir f i, out, None)
  end.

Definition File_Readdirnames (w : World) (f : File) (n : Z)
  : result (File * list string * option error) :=
  '(nd, e) ← listing_guard w f;
  match e with
  | Some e => Ret (f, [], Some e)
  | None =>
      names ← getEntryNames w (node f);
      '(i, out) ← page names names (indexReaddirnames f) n;
      Ret (with_indexReaddirnames f i, out, None)
  end.

(** ** The tree and path resolution *)

Definition tempDir : string := "tmp".
Definition ModePerm : Z := 511. (* 0777 *)

Definition getNextFileDescriptor (w : World) : World * Z :=
  (mkWorld (heap w) (root w) (wrap_int (nextFD w + 1)) (wd w) (clock w), nextFD w).

Definition getAbsolutePath (w : World) (path : string) : string :=
  filepath_Clean
    (if negb (filepath_IsAbs path) then filepath_Abs (wd w) path else path).

(** [randomString(8)] is not computed here: the string it draws is an input
    of the model, [r]. *)
Definition createRandomPathPart (pattern r : string) : string :=
  let pattern :=
    if negb (strings_Contains pattern "*"%char) then pattern +:+ "*" else pattern in
  strings_ReplaceAll pattern "*"%char r.

Definition ValidPath (path : string) : bool := utf8_ValidString path.

Definition entry_result : Type := ptr * ptr * string * option error.

(** The loop of [getEntry]: [inl] is a return from inside the loop, [inr]
    the directory reached when the loop ends. *)
Fixpoint getEntry_walk (w : World) (current : ptr) (parts : list string)
  : result (entry_result + ptr) :=
  match parts with
  | [] => Ret (inr current)
  | part :: rest =>
      cn ← deref w current;
      match lookup_entry cn part with
      | Some e =>
          en ← deref w (Some e);
          if negb (isDir en) then
            Ret (inl (None, None, EmptyString, Some (Errorf "not a directory" part ErrInvalid)))
          else getEntry_walk w (Some e) rest
      | None =>
          Ret (inl (current, None, strings_Join (part :: rest) "/", None))
      end
  end.

Definition getEntry (w : World) (path : string) : result entry_result :=
  if negb (ValidPath path) then
    Ret (None, None, EmptyString, Some (Errorf "invalid path" path ErrInvalid))
  else
    let path := getAbsolutePath w path in
    let '(parentDir, lastEntry) := filepath_Split path in
    if String.eqb parentDir "/" && String.eqb lastEntry EmptyString then
      Ret (root w, None, EmptyString, None)
    else
      let parts :=
        if String.eqb parentDir "/" then [EmptyString]
        else strings_Split (filepath_Clean parentDir) Separator in
      match parts with
      | [] => Ret (None, None, EmptyString, Some (Errorf "invalid path" path ErrInvalid))
      | first :: parts =>
          if negb (String.eqb first EmptyString) then
            Ret (None, None, EmptyString, Some (Errorf "invalid path" path ErrInvalid))
          else
            r ← getEntry_walk w (root w) parts;
            match r with
            | inl early => Ret early
            | inr current =>
                cn ← deref w current;
                match lookup_entry cn lastEntry with
                | Some e => Ret (current, Some e, EmptyString, None)
                | None => Ret (current, None, lastEntry, None)
                end
            end
      end.

Definition new_dir (w : World) (nm : string) (pm : Z) : fsNode :=
  mkNode nm pm (clock w) [] (Some ∅) false.

Definition new_file (w : World) (nm : string) (pm : Z) : fsNode :=
  mkNode nm pm (clock w) [] None false.

(** The loop of [MkdirAll]. *)
Fixpoint MkdirAll_walk (w : World) (current : ptr) (parts : list string) (pm : Z)
  : result (World * option error) :=
  match parts with
  | [] => Ret (w, None)
  | part :: rest =>
      cn ← deref w current;
      match lookup_entry cn part with
      | Some e =>
          en ← deref w (Some e);
          if negb (isDir en) then
            Ret (w, Some (Errorf "not a directory" part ErrInvalid))
          else MkdirAll_walk w (Some e) rest pm
      | None =>
          let '(w1, l) := alloc w (new_dir w part pm) in
          w2 ← assign_entry w1 current part l;
          MkdirAll_walk w2 (Some l) rest pm
      end
  end.

Definition MkdirAll (w : World) (path : string) (pm : Z) : result (World * option error) :=
  if negb (ValidPath path) then
    Ret (w, Some (Errorf "invalid path" path ErrInvalid))
  else
    match strings_Split path Separator with
    | [] => Ret (w, Some (Errorf "invalid path" path ErrInvalid))
    | first :: rest =>
        if negb (String.eqb first EmptyString) then
          Ret (w, Some (Errorf "invalid path" path ErrInvalid))
        else
          match rest with
          | [] => Ret (w, None)
          | _ => MkdirAll_walk w (root w) rest pm
          end
    end.

(** [New()], in a process whose working directory is [cwd] and whose clock
    reads [now]. *)
Definition New (cwd : string) (now : Z) : result World :=
  let rootNode := mkNode EmptyString ModePerm now [] (Some {[ tempDir := 1%nat ]}) false in
  let tmpNode := mkNode tempDir ModePerm now [] (Some ∅) false in
  let w := mkWorld (<[1%nat := tmpNode]> {[ 0%nat := rootNode ]}) (Some 0%nat) 100 cwd now in
  '(w', _) ← MkdirAll w cwd ModePerm;
  Ret w'.

Definition more_than_one_missing (missingPath : string) : bool :=
  negb (String.eqb missingPath EmptyString)
  && (1 <? len (strings_Split missingPath Separator)).

Definition OpenFile (w : World) (path : string) (flg pm : Z)
  : result (World * option File * option error) :=
  let fileFlag := flg in
  '(parentNode, entryNode, missingPath, err) ← getEntry w path;
  match err with
  | Some e => Ret (w, None, Some e)
  | None =>
      if more_than_one_missing missingPath then
        Ret (w, None, Some (Errorf "path does not exist" path ErrNotExist))
      else
        let c := mkCrws entryNode 0 in
        match entryNode with
        | Some _ =>
            en ← deref w entryNode;
            if isDir en then
              let '(w1, d) := getNextFileDescriptor w in
              Ret (w1, Some (mkFile entryNode fileFlag d None false 0 0 0), None)
            else if canWrite fileFlag then
              if isCreate fileFlag && isCreateMustNotExist fileFlag then
                Ret (w, None, Some (Errorf "path exists" path ErrExist))
              else if isTruncating fileFlag then
                w1 ← setContent w entryNode [];
                let '(w2, d) := getNextFileDescriptor w1 in
                Ret (w2, Some (mkFile entryNode fileFlag d (Some c) false 0 0 0), None)
              else if isAppend fileFlag then
                '(c', _, _) ← crws_Seek w (Some c) 0 SeekEnd;
                let '(w1, d) := getNextFileDescriptor w in
                Ret (w1, Some (mkFile entryNode fileFlag d c' false 0 0 0), None)
              else
                let '(w1, d) := getNextFileDescriptor w in
                Ret (w1, Some (mkFile entryNode fileFlag d (Some c) false 0 0 0), None)
            else
              let '(w1, d) := getNextFileDescriptor w in
              Ret (w1, Some (mkFile entryNode fileFlag d (Some c) false 0 0 0), None)
        | None =>
            if isReadOnly fileFlag then
              Ret (w, None, Some (Errorf "path does not exist" path ErrNotExist))
            else if isCreate fileFlag then
              _ ← deref w parentNode;
              let '(w1, l) := alloc w (new_file w missingPath pm) in
              w2 ← assign_entry w1 parentNode missingPath l;
              let '(w3, d) := getNextFileDescriptor w2 in
              Ret (w3, Some (mkFile (Some l) fileFlag d (Some (mkCrws (Some l) 0))
                                    false 0 0 0), None)
            else
              Ret (w, None,
                   Some (Errorf "path does not exist and cannot create" path ErrInvalid))
        end
  end.

Definition Open (w : World) (path : string) :=
  OpenFile w path O_RDONLY 0.

Definition Create (w : World) (path : string) :=
  OpenFile w path (Z.lor (Z.lor O_RDWR O_CREATE) O_TRUNC) 438. (* 0666 *)

Definition Stat (w : World) (path : string) : result (FileInfo * option error) :=
  '(_, entryNode, missingPath, err) ← getEntry w path;
  match err with
  | Some e => Ret (mkFileInfo None, Some e)
  | None =>
      if negb (String.eqb missingPath EmptyString) then
        Ret (mkFileInfo None, Some (Errorf "path does not exist" path ErrNotExist))
      else Ret (mkFileInfo entryNode, None)
  end.

(** The two statements both branches of [Remove] and [RemoveAll] run:
    [entryNode.unlinked = true] and
    [delete(parentNode.entries, entryNode.name)]. *)
Definition detach (w : World) (parentNode entryNode : ptr) : result World :=
  _ ← deref w parentNode;
  w1 ← modify w entryNode (fun n => set_unlinked n true);
  en ← deref w1 entryNode;
  delete_entry w1 parentNode (name en).

Definition Remove (w : World) (path : string) : result (World * option error) :=
  '(parentNode, entryNode, missingPath, err) ← getEntry w path;
  match err with
  | Some e => Ret (w, Some e)
  | None =>
      if negb (String.eqb missingPath EmptyString) then
        Ret (w, Some (Errorf "path does not exist" path ErrNotExist))
      else
        en ← deref w entryNode;
        if isDir en then
          if len_entries en =? 0 then
            w' ← detach w parentNode entryNode;
            Ret (w', None)
          else Ret (w, Some (Errorf "directory not empty" path ErrInvalid))
        else
          w' ← detach w parentNode entryNode;
          Ret (w', None)
  end.

(** [RemoveAll] calls itself from a loop over the children of the directory
    it has just detached; [fuel] bounds the depth of these calls. *)
Fixpoint RemoveAll (fuel : nat) (w : World) (path : string)
  : result (World * option error) :=
  match fuel with
  | O => OutOfFuel
  | S fuel =>
      '(parentNode, entryNode, missingPath, err) ← getEntry w path;
      match err with
      | Some e => Ret (w, Some e)
      | None =>
          if negb (String.eqb missingPath EmptyString) then
            Ret (w, Some (Errorf "path does not exist" path ErrNotExist))
          else
            en ← deref w entryNode;
            if isDir en then
              if len_entries en =? 0 then
                w1 ← detach w parentNode entryNode;
                en1 ← deref w1 entryNode;
                w2 ← foldl
                       (fun acc part =>
                          wa ← acc;
                          '(wb, _) ← RemoveAll fuel wa
                                       (filepath_Join [path; name en1; part]);
                          Ret wb)
                       (Ret w1)
                       (match entries en1 with
                        | Some m => map fst (map_to_list m)
                        | None => []
                        end);
                Ret (w2, None)
              else Ret (w, Some (Errorf "directory not empty" path ErrInvalid))
            else
              w' ← detach w parentNode entryNode;
              Ret (w', None)
      end
  end.

Definition FS_ReadDir (w : World) (path : string)
  : result (list DirEntry * option error) :=
  '(_, entryNode, missingPath, err) ← getEntry w path;
  match err with
  | Some e => Ret ([], Some e)
  | None =>
      if negb (String.eqb missingPath EmptyString) then
        Ret ([], Some (Errorf "path does not exist" path ErrNotExist))
      else
        names ← getEntryNames w entryNode;
        en ← deref w entryNode;
        Ret (map (fun nm => mkDirEntry (lookup_entry en nm)) names, None)
  end.

Definition Mkdir (w : World) (path : string) (pm : Z) : result (World * option error) :=
  '(parentNode, entryNode, missingPath, err) ← getEntry w path;
  match err with
  | Some e => Ret (w, Some e)
  | None =>
      match entryNode with
      | None =>
          if String.eqb missingPath EmptyString then Ret (w, None)
          else if more_than_one_missing missingPath then
            Ret (w, Some (Errorf "path does not exist" path ErrNotExist))
          else
            _ ← deref w parentNode;
            let '(w1, l) := alloc w (new_dir w missingPath pm) in
            w2 ← assign_entry w1 parentNode missingPath l;
            Ret (w2, None)
      | Some _ => Ret (w, Some (Errorf "path exists" path ErrExist))
      end
  end.

Definition TempDir : string := String Separator tempDir.

(** The loop [for err != nil] of [CreateTemp]; [draws] are the strings
    [randomString] returns, one for each turn of the loop. *)
Fixpoint CreateTemp_loop (w : World) (dir pattern : string) (draws : list string)
  : result (World * option File * option error) :=
  match draws with
  | [] => OutOfFuel
  | r :: draws =>
      '(w', file, err) ← Create w (filepath_Join [dir; createRandomPathPart pattern r]);
      match err with
      | Some _ => CreateTemp_loop w' dir pattern draws
      | None => Ret (w', file, None)
      end
  end.

Definition CreateTemp (w : World) (dir pattern : string) (draws : list string)
  : result (World * option File * option error) :=
  let dir := if String.eqb dir EmptyString then TempDir else dir in
  '(_, entryNode, _, err) ← getEntry w dir;
  match err with
  | Some e => Ret (w, None, Some e)
  | None =>
      match entryNode with
      | None => Ret (w, None, Some (Errorf "dir does not exist" dir ErrNotExist))
      | Some _ =>
          en ← deref w entryNode;
          if negb (isDir en) then
            Ret (w, None, Some (Errorf "dir does not exist" dir ErrNotExist))
          else CreateTemp_loop w dir pattern draws
      end
  end.

(** The loop [for err != nil] of [MkdirTemp]. *)
Fixpoint MkdirTemp_loop (w : World) (dir pattern : string) (draws : list string)
  : result (World * string * option error) :=
  match draws with
  | [] => OutOfFuel
  | r :: draws =>
      let tDir := filepath_Join [dir; createRandomPathPart pattern r] in
      '(w', err) ← Mkdir w tDir ModePerm;
      match err with
      | Some _ => MkdirTemp_loop w' dir pattern draws
      | None => Ret (w', tDir, None)
      end
  end.

Definition MkdirTemp (w : World) (dir pattern : string) (draws : list string)
  : result (World * string * option error) :=
  let dir := if String.eqb dir EmptyString then TempDir else dir in
  '(_, entryNode, _, err) ← getEntry w dir;
  match err with
  | Some e => Ret (w, EmptyString, Some e)
  | None =>
      match entryNode with
      | None => Ret (w, EmptyString, Some (Errorf "dir does not exist" dir ErrNotExist))
      | Some _ =>
          en ← deref w entryNode;
          if negb (isDir en) then
            Ret (w, EmptyString, Some (Errorf "dir does not exist" dir ErrNotExist))
          else MkdirTemp_loop w dir pattern draws
      end
  end.

(** ** Definitions used to state the properties *)

(** The growth and overwrite rule in the specification's words: the old
    content up to [at_], zero-filled if it is shorter; then the bytes
    written; then whatever of the old content lies past them. *)
Definition written (old : list byte) (at_ : Z) (buf : list byte) : list byte :=
  let a := Z.to_nat at_ in
  take a (old ++ replicate (a - length old) x00) ++ buf ++ drop (a + length buf) old.

(** One call of a listing view over the listing [all], from index [i], for
    a requested count [n]: the new index and the entries returned. *)
Definition page_spec {A} (all : list A) (i n : Z) : Z * list A :=
  if (n <? 0) || (len all <=? n) then (i, all)
  else if len all - i <=? n then (0, drop (Z.to_nat i) all)
  else (i + n, take (Z.to_nat n) (drop (Z.to_nat i) all)).

(** The sorted names of a directory's children. *)
Definition names_of (m : gmap string loc) : list string :=
  sort_Strings (map fst (map_to_list m)).

(** Using the [*File] an open call returned. *)
Definition the_file (o : option File) : result File :=
  match o with
  | Some f => Ret f
  | None => Panic NilDereference
  end.

Definition zeros (k : nat) : list byte := replicate k x00.

Definition ten_digits : list byte :=
  [x30; x31; x32; x33; x34; x35; x36; x37; x38; x39].

(** A store with the file [/a] holding two bytes, and a read-write handle on
    it whose cursor is at 5. *)
Definition demo_file : fsNode := mkNode "a" 438 7 [x61; x62] None false.
Definition demo_root : fsNode :=
  mkNode EmptyString ModePerm 7 [] (Some {[ "a" := 1%nat ]}) false.
Definition demo_world : World :=
  mkWorld (<[1%nat := demo_file]> {[ 0%nat := demo_root ]}) (Some 0%nat) 101 "/" 7.
Definition demo_crws : contentReadWriteSeekerImpl := mkCrws (Some 1%nat) 5.
Definition demo_handle : File :=
  mkFile (Some 1%nat) O_RDWR 100 (Some demo_crws) false 0 0 0.

(** A new store in which a ten-byte file is written, rewound, and read once
    through a four-byte buffer. *)
Definition chunked_read_scenario : result (World * File) :=
  w ← New "/home/u" 7;
  '(w, o, _) ← Create w "/tmp/a";
  f ← the_file o;
  '(w, f, _, _) ← File_Write w f ten_digits;
  '(f, _, _) ← File_Seek w f 0 SeekStart;
  '(f, _, _, _) ← File_Read w f (zeros 4);
  Ret (w, f).

(** A new store and a read-write handle opened on its directory [/tmp]. *)
Definition directory_handle_scenario : result (World * File) :=
  w ← New "/home/u" 7;
  '(w, o, _) ← OpenFile w "/tmp" O_RDWR 0;
  f ← the_file o;
  Ret (w, f).

(** A new store with the directory [/d] holding [a], [b] and [c], and a
    handle on [/d] that has read one name. *)
Definition listing_scenario : result (World * File) :=
  w ← New "/home/u" 7;
  '(w, _) ← MkdirAll w "/d/a" ModePerm;
  '(w, _) ← MkdirAll w "/d/b" ModePerm;
  '(w, _) ← MkdirAll w "/d/c" ModePerm;
  '(w, o, _) ← Open w "/d";
  f ← the_file o;
  '(f, _, _) ← File_Readdirnames w f 1;
  Ret (w, f).

(** Two calls of [CreateTemp] in which [randomString] draws the same string. *)
Definition same_draw_scenario : result (World * File * File) :=
  w ← New "/home/u" 7;
  '(w, o1, _) ← CreateTemp w "/tmp" "f*" ["abcdefgh"];
  f1 ← the_file o1;
  '(w, _, _, _) ← File_Write w f1 ten_digits;
  '(w, o2, _) ← CreateTemp w "/tmp" "f*" ["abcdefgh"];
  f2 ← the_file o2;
  Ret (w, f1, f2).

(** A new store with the file [/tmp/a], a handle open on it, and the file
    then removed. *)
Definition removed_scenario : result (World * World * File) :=
  w ← New "/home/u" 7;
  '(w, o, _) ← Create w "/tmp/a";
  f ← the_file o;
  '(w', _) ← Remove w "/tmp/a";
  Ret (w, w', f).

Definition run_or {A} (d : A) (r : result A) : A :=
  match r with Ret a => a | _ => d end.

(** The same handle with its cursor at the start. *)
Definition rewound_handle : File :=
  with_crws demo_handle (Some (mkCrws (Some 1%nat) 0)).

(** A store with the directory [/d] holding [a], [b] and [c], and a handle
    on [/d] whose three listing indices are at 1. *)
Definition demo_children : gmap string loc :=
  <["a" := 2%nat]> (<["b" := 3%nat]> {[ "c" := 4%nat ]}).
Definition demo_dir : fsNode := mkNode "d" ModePerm 7 [] (Some demo_children) false.
Definition demo_leaf (nm : string) : fsNode := mkNode nm ModePerm 7 [] (Some ∅) false.
Definition demo_dir_world : World :=
  mkWorld (<[0%nat := mkNode EmptyString ModePerm 7 [] (Some {[ "d" := 1%nat ]}) false]>
           (<[1%nat := demo_dir]>
            (<[2%nat := demo_leaf "a"]>
             (<[3%nat := demo_leaf "b"]> {[ 4%nat := demo_leaf "c" ]}))))
          (Some 0%nat) 101 "/" 7.
Definition demo_dir_handle : File :=
  mkFile (Some 1%nat) O_RDONLY 100 None false 1 1 1.

(** The states of [removed_scenario]: before the removal, after it, and the
    handle. *)
Definition removed_states : World * World * File :=
  Eval vm_compute in run_or (demo_world, demo_world, demo_handle) removed_scenario.
Definition before_removal : World := Eval vm_compute in fst (fst removed_states).
Definition after_removal : World := Eval vm_compute in snd (fst removed_states).
Definition removed_handle : File := Eval vm_compute in snd removed_states.

(** The bytes of ["test data"]. *)
Definition test_data : list byte :=
  [x74; x65; x73; x74; x20; x64; x61; x74; x61].

(** The opening steps of the repository's test [Test_File_Operations], with
    what each call returns. *)
Definition file_operations_test
  : result (option error * option error * Z * option error
            * Z * list byte * option error * option error) :=
  w ← New "/home/u" 7;
  '(w, e1) ← Mkdir w "/test" ModePerm;
  '(w, e2) ← Mkdir w "/test" ModePerm;
  '(w, o, _) ← Create w "/test/file1";
  f ← the_file o;
  '(w, f, n, _) ← File_Write w f test_data;
  '(f, _, _, e3) ← File_Read w f (zeros 9);
  '(f, p, k, _) ← File_ReadAt w f (zeros 9) 0;
  '(f, e4) ← File_Close w f;
  '(f, e5) ← File_Close w f;
  Ret (e1, e2, n, e3, k, p, e4, e5).

(** ** Directory entries *)

Definition ModeDir : Z := 2 ^ 31.

Definition DirEntry_Name (w : World) (de : DirEntry) : result string :=
  n ← deref w (DirEntry_node de); Ret (name n).

Definition DirEntry_IsDir (w : World) (de : DirEntry) : result bool :=
  n ← deref w (DirEntry_node de); Ret (isDir n).

Definition DirEntry_Type (w : World) (de : DirEntry) : result Z :=
  d ← DirEntry_IsDir w de;
  if (d : bool) then Ret ModeDir else Ret 0.

Definition DirEntry_Info (de : DirEntry) : FileInfo * option error :=
  (mkFileInfo (DirEntry_node de), None).

(** ** Invariants of the store *)

(** Every child a node lists is a node of the heap. *)
Definition closed_heap (w : World) : Prop :=
  forall l n k v,
    heap w !! l = Some n -> lookup_entry n k = Some v -> is_Some (heap w !! v).

(** The root is a directory of the heap, and the heap is closed. *)
Definition intact (w : World) : Prop :=
  (exists l rn, root w = Some l /\ heap w !! l = Some rn /\ isDir rn = true)
  /\ closed_heap w.

(** [n'] is [n] with, at most, more children. *)
Definition node_grows (n n' : fsNode) : Prop :=
  name n' = name n /\ perm n' = perm n /\ modified n' = modified n
  /\ content n' = content n /\ unlinked n' = unlinked n
  /\ isDir n' = isDir n
  /\ forall k v, lookup_entry n k = Some v -> lookup_entry n' k = Some v.

(** [w'] is [w] with, at most, more nodes and more children. *)
Definition grows (w w' : World) : Prop :=
  (root w' = root w /\ wd w' = wd w)
  /\ forall l n, heap w !! l = Some n ->
       exists n', heap w' !! l = Some n' /\ node_grows n n'.

(** What [getEntry] hands back, on an intact store, when it reports no
    error: the parent is a directory of the heap, and the target, if there
    is one, is a node of the heap. *)
Definition resolved (w : World) (r : entry_result) : Prop :=
  let '(parent, entry, missing, err) := r in
  err = None ->
  (exists pl pn, parent = Some pl /\ heap w !! pl = Some pn /\ isDir pn = true)
  /\ (forall e, entry = Some e -> is_Some (heap w !! e)).

(** A handle as [OpenFile] makes them: its node is in the heap; a directory
    handle has no content engine, a file handle has one that owns the
    handle's node and whose cursor is not negative. *)
Definition sound_handle (w : World) (f : File) : Prop :=
  exists l n,
    node f = Some l /\ heap w !! l = Some n
    /\ match crws f with
       | Some c => owner c = Some l /\ isDir n = false /\ 0 <= pos c
       | None => isDir n = true
       end.

(** The store [New] builds before it makes the working directory. *)
Definition initial_store (cwd : string) (now : Z) : World :=
  mkWorld (<[1%nat := mkNode tempDir ModePerm now [] (Some ∅) false]>
             {[ 0%nat := mkNode EmptyString ModePerm now []
                           (Some {[ tempDir := 1%nat ]}) false ]})
          (Some 0%nat) 100 cwd now.

(** The segments [getEntry] walks for a path that is not the root: the
    directories below the root, in order, and the last segment. *)
Definition path_segments (w : World) (path : string) : option (list string * string) :=
  let '(parentDir, lastEntry) := filepath_Split (getAbsolutePath w path) in
  if String.eqb parentDir "/" && String.eqb lastEntry EmptyString then None
  else
    match (if String.eqb parentDir "/" then [EmptyString]
           else strings_Split (filepath_Clean parentDir) Separator) with
    | first :: parts =>
        if String.eqb first EmptyString then Some (parts, lastEntry) else None
    | [] => None
    end.

(** Stores and handles the properties are tried on. *)
Definition world_of (r : result (World * option error)) : World :=
  match r with Ret (w, _) => w | _ => demo_world end.
Definition grown_store : World :=
  Eval vm_compute in world_of (MkdirAll demo_world "/x/y" 7).
Definition temp_store : World :=
  Eval vm_compute in
    match MkdirTemp (initial_store "/" 0) EmptyString "f*" ["abcdefgh"] with
    | Ret (w, _, _) => w
    | _ => demo_world
    end.
Definition root_handle : File := mkFile (Some 0%nat) O_RDONLY 100 None false 0 0 0.
Definition create_only_handle : File :=
  mkFile (Some 1%nat) O_CREATE 100 (Some (mkCrws (Some 1%nat) 0)) false 0 0 0.
Definition opened_store : World := mkWorld (heap demo_world) (Some 0%nat) 102 "/" 7.
Definition opened_handle : File :=
  mkFile (Some 1%nat) O_RDONLY 101 (Some (mkCrws (Some 1%nat) 0)) false 0 0 0.

(** * Properties *)

Arguments go_copy : simpl never.
Arguments copy_at : simpl never.
Arguments go_make : simpl never.
Arguments written : simpl never.
Arguments wrap_int : simpl never.
Arguments crws_write : simpl never.
Arguments crws_read : simpl never.

(** ** The library model on known inputs *)

Example Clean_examples :
  map filepath_Clean
    ["/a/b/../c/"; "//"; "a/../.."; "/.."; "../a"; "a//b/."; "/"; "/tmp"; EmptyString]
  = ["/a/c"; "/"; ".."; "/"; "../a"; "a/b"; "/"; "/tmp"; "."].
Proof. reflexivity. Qed.

Example Split_examples :
  map filepath_Split ["/a/b"; "/"; "a"; "/tmp"; EmptyString]
  = [("/a/", "b"); ("/", EmptyString); (EmptyString, "a"); ("/", "tmp");
     (EmptyString, EmptyString)].
Proof. reflexivity. Qed.

Example strings_Split_examples :
  map (fun s => strings_Split s Separator) [EmptyString; "/"; "/a//b"; "a/b"]
  = [[EmptyString]; [EmptyString; EmptyString]; [EmptyString; "a"; EmptyString; "b"];
     ["a"; "b"]].
Proof. reflexivity. Qed.

Example ValidString_examples :
  map utf8_ValidString
    ["/tmp";
     String (ascii_of_N 0x52) (String (ascii_of_N 0xE4) (String (ascii_of_N 0x76) EmptyString))]
  = [true; false].
Proof. reflexivity. Qed.

(** The model agrees with what the repository's test asserts: the second
    [Mkdir] fails, the write reports nine bytes, the [Read] that follows is
    at the end of the data, [ReadAt] from 0 gives the bytes back, and only
    the first [Close] succeeds. *)
Example file_operations_test_passes :
  file_operations_test
  = Ret (None, Some (Errorf "path exists" "/test" ErrExist), 9,
         Some (Bare EOF), 9, test_data, None,
         Some (Errorf "file closed" "file1" ErrClosed)).
Proof. vm_compute. reflexivity. Qed.

(** ** Arithmetic and slices *)

Lemma wrap_int_id z : - 2 ^ 63 <= z <= max_int -> wrap_int z = z.
Proof.
  unfold wrap_int, max_int. intros H.
  rewrite Z.mod_small; lia.
Qed.

Lemma go_copy_short {A} (dst src : list A) :
  (length src <= length dst)%nat ->
  go_copy dst src = (src ++ drop (length src) dst, len src).
Proof.
  intros H. unfold go_copy, len.
  rewrite Nat.min_r by lia. by rewrite take_ge by lia.
Qed.

Lemma go_copy_long {A} (dst src : list A) :
  (length dst <= length src)%nat ->
  go_copy dst src = (take (length dst) src, len dst).
Proof.
  intros H. unfold go_copy, len.
  rewrite Nat.min_l by lia. rewrite drop_all. by rewrite app_nil_r.
Qed.

Lemma content_grown (old : list byte) (l : nat) :
  (length old <= l)%nat ->
  fst (go_copy (replicate l x00) old) = old ++ replicate (l - length old) x00.
Proof.
  intros H. rewrite go_copy_short by (rewrite length_replicate; lia).
  cbn. by rewrite drop_replicate.
Qed.

Lemma copy_at_spec (dst p : list byte) (a : nat) :
  (a <= length dst)%nat ->
  copy_at dst (Z.of_nat a) p = Ret (take a dst ++ fst (go_copy (drop a dst) p)).
Proof.
  intros H. unfold copy_at, slice_from, len.
  destruct (Z.of_nat a <? 0) eqn:E1; [lia|].
  destruct (Z.of_nat (length dst) <? Z.of_nat a) eqn:E2; [lia|].
  cbn. by rewrite Nat2Z.id.
Qed.

(** ** The write rule *)

Lemma grow_then_write (old p : list byte) (a : nat) :
  (length old < a + length p \/ length old <= a)%nat ->
  take a (old ++ replicate (a + length p - length old) x00) ++ p
  = written old (Z.of_nat a) p.
Proof.
  intros H. unfold written. rewrite Nat2Z.id.
  rewrite (drop_ge old) by lia. rewrite app_nil_r. f_equal.
  destruct (decide (length old <= a)%nat) as [Hle|Hgt].
  - rewrite !take_app_ge by lia. rewrite !take_replicate. do 2 f_equal. lia.
  - rewrite !take_app_le by lia. done.
Qed.

Lemma overwrite_in_place (old p : list byte) (a : nat) :
  (a + length p <= length old)%nat ->
  take a old ++ p ++ drop (length p) (drop a old) = written old (Z.of_nat a) p.
Proof.
  intros H. unfold written. rewrite Nat2Z.id.
  rewrite drop_drop. rewrite take_app_le by lia. done.
Qed.

Lemma written_length (old p : list byte) (a : nat) :
  length (written old (Z.of_nat a) p) = (length old `max` (a + length p))%nat.
Proof.
  unfold written. rewrite Nat2Z.id.
  rewrite !length_app, length_take, length_app, length_replicate, length_drop. lia.
Qed.

Lemma crws_write_spec w c p l n :
  owner c = Some l -> heap w !! l = Some n ->
  0 <= pos c -> pos c + len p <= max_int ->
  crws_write w c p =
    Ret (with_heap w (<[l := set_content n (written (content n) (pos c) p)]> (heap w)),
         mkCrws (Some l) (pos c + len p), len p, None).
Proof.
  intros Ho Hl Hpos Hfit.
  assert (Hw : wrap_int (pos c + len p) = pos c + len p).
  { apply wrap_int_id. unfold len, max_int in *. lia. }
  unfold crws_write, getContent, setContent, modify, deref. rewrite Ho, Hl. cbn.
  rewrite Hw.
  assert (Ha : pos c = Z.of_nat (Z.to_nat (pos c))) by lia.
  set (a := Z.to_nat (pos c)) in *. rewrite Ha. unfold len in *.
  set (old := content n).
  assert (Hmk : go_make (Z.of_nat a + Z.of_nat (length p))
                = Ret (replicate (a + length p) x00)).
  { unfold go_make. destruct (_ <? 0) eqn:E; [lia|]. do 2 f_equal. lia. }
  destruct (Z.of_nat (length old) <=? Z.of_nat a) eqn:E1;
    [|destruct (Z.of_nat (length old) <? Z.of_nat a + Z.of_nat (length p)) eqn:E2].
  - rewrite Hmk. cbn. rewrite content_grown by lia.
    rewrite copy_at_spec by (rewrite length_app, length_replicate; lia). cbn.
    rewrite go_copy_short by (rewrite length_drop, length_app, length_replicate; lia).
    cbn. rewrite drop_ge by (rewrite length_drop, length_app, length_replicate; lia).
    rewrite app_nil_r. rewrite grow_then_write by lia. done.
  - rewrite Hmk. cbn. rewrite content_grown by lia.
    rewrite copy_at_spec by (rewrite length_app, length_replicate; lia). cbn.
    rewrite go_copy_short by (rewrite length_drop, length_app, length_replicate; lia).
    cbn. rewrite drop_ge by (rewrite length_drop, length_app, length_replicate; lia).
    rewrite app_nil_r. rewrite grow_then_write by lia. done.
  - cbn. rewrite copy_at_spec by lia. cbn.
    rewrite go_copy_short by (rewrite length_drop; lia). cbn.
    rewrite overwrite_in_place by lia. done.
Qed.

Lemma File_Write_spec w f buf l n c :
  node f = Some l -> heap w !! l = Some n -> unlinked n = false ->
  canWrite (flag f) = true -> closed f = false ->
  crws f = Some c -> owner c = Some l ->
  0 <= pos c -> pos c + len buf <= max_int ->
  File_Write w f buf =
    Ret (with_heap w (<[l := set_content n (written (content n) (pos c) buf)]> (heap w)),
         with_crws f (Some (mkCrws (Some l) (pos c + len buf))),
         len buf, None).
Proof.
  intros Hn Hl Hu Hw Hc Hcr Ho Hpos Hfit.
  unfold File_Write, deref. rewrite Hn, Hl. cbn. rewrite Hu, Hw, Hc, Hcr. cbn.
  unfold deref. rewrite Ho, Hl. cbn.
  rewrite (crws_write_spec w c buf l n Ho Hl Hpos Hfit). done.
Qed.

(** C7. On a writable, open handle over a live file, [Write(buf)] returns
    [len(buf)] and no error, leaves the cursor [len(buf)] further, and
    replaces the content by the old content up to the cursor (zero-filled
    when it is shorter), then [buf], then the old content past the bytes
    written.  Writing one byte at cursor 5 into a two-byte content gives
    six bytes: the two old ones, three zeros, the new one.  The cursor is
    not negative and the end of the write fits Go's [int]. *)
Theorem C7_Write_grows_and_overwrites :
  forall w f buf l n c,
    node f = Some l -> heap w !! l = Some n -> unlinked n = false ->
    canWrite (flag f) = true -> closed f = false ->
    crws f = Some c -> owner c = Some l ->
    0 <= pos c -> pos c + len buf <= max_int ->
    File_Write w f buf =
      Ret (with_heap w (<[l := set_content n (written (content n) (pos c) buf)]> (heap w)),
           with_crws f (Some (mkCrws (Some l) (pos c + len buf))),
           len buf, None)
    /\ len (written (content n) (pos c) buf) = Z.max (len (content n)) (pos c + len buf)
    /\ (forall b0 b1 x, written [b0; b1] 5 [x] = [b0; b1; x00; x00; x00; x]).
Proof.
  intros w f buf l n c Hn Hl Hu Hw Hc Hcr Ho Hpos Hfit.
  split; [|split].
  - by apply File_Write_spec.
  - unfold len. replace (pos c) with (Z.of_nat (Z.to_nat (pos c))) by lia.
    rewrite written_length. lia.
  - intros b0 b1 x. reflexivity.
Qed.

Lemma C7_witness :
  (node demo_handle = Some 1%nat /\ heap demo_world !! 1%nat = Some demo_file
   /\ canWrite (flag demo_handle) = true /\ crws demo_handle = Some demo_crws)
  /\ File_Write demo_world demo_handle [x58] =
      Ret (with_heap demo_world
             (<[1%nat := set_content demo_file [x61; x62; x00; x00; x00; x58]]>
                (heap demo_world)),
           with_crws demo_handle (Some (mkCrws (Some 1%nat) 6)), 1, None).
Proof.
  split; [repeat split|].
  exact (proj1 (C7_Write_grows_and_overwrites demo_world demo_handle [x58] 1%nat
                  demo_file demo_crws eq_refl eq_refl eq_refl eq_refl eq_refl
                  eq_refl eq_refl ltac:(vm_compute; discriminate)
                  ltac:(vm_compute; discriminate))).
Defined.

(** C3, as stated, fails: a [WriteAt] of one byte at offset 5 through a
    handle whose cursor is 0 leaves the cursor at 6. *)
Lemma C3_WriteAt_moves_the_cursor :
  canWrite (flag rewound_handle) = true
  /\ isAppend (flag rewound_handle) = false
  /\ pos <$> crws rewound_handle = Some 0
  /\ exists w' f',
       File_WriteAt demo_world rewound_handle [x58] 5 = Ret (w', f', 1, None)
       /\ pos <$> crws f' = Some 6
       /\ pos <$> crws f' <> pos <$> crws rewound_handle.
Proof.
  repeat split. do 2 eexists. split; [vm_compute; reflexivity|].
  split; [reflexivity|discriminate].
Qed.

(** C3, amended. On a writable handle without the Append flag, open over a
    live file, [WriteAt(buf, off)] with [off >= 0] is [Write(buf)] run with
    the cursor first set to [off]: the same growth and overwrite rule at
    position [off], [len(buf)] reported, and the cursor left at
    [off + len(buf)]. *)
Theorem C3_WriteAt_is_Write_at_the_offset :
  forall w f buf off l n c,
    node f = Some l -> heap w !! l = Some n -> unlinked n = false ->
    canWrite (flag f) = true -> isAppend (flag f) = false -> closed f = false ->
    crws f = Some c -> owner c = Some l ->
    0 <= off -> off + len buf <= max_int ->
    File_WriteAt w f buf off
      = File_Write w (with_crws f (Some (mkCrws (owner c) off))) buf
    /\ File_WriteAt w f buf off =
         Ret (with_heap w (<[l := set_content n (written (content n) off buf)]> (heap w)),
              with_crws f (Some (mkCrws (Some l) (off + len buf))),
              len buf, None).
Proof.
  intros w f buf off l n c Hn Hl Hu Hw Ha Hc Hcr Ho Hoff Hfit.
  assert (Hlt : (off <? 0) = false) by lia.
  assert (E : File_WriteAt w f buf off =
              Ret (with_heap w (<[l := set_content n (written (content n) off buf)]> (heap w)),
                   with_crws f (Some (mkCrws (Some l) (off + len buf))),
                   len buf, None)).
  { unfold File_WriteAt, deref. rewrite Hn, Hl. cbn. rewrite Hu, Hw, Ha, Hc, Hcr. cbn.
    unfold crws_WriteAt. rewrite Hlt. unfold deref. rewrite Ho, Hl. cbn.
    rewrite (crws_write_spec w (mkCrws (Some l) off) buf l n eq_refl Hl Hoff Hfit).
    done. }
  split; [|exact E].
  rewrite E. symmetry.
  rewrite (File_Write_spec w (with_crws f (Some (mkCrws (owner c) off))) buf l n
             (mkCrws (owner c) off)); try done.
Qed.

Lemma C3_witness :
  (node rewound_handle = Some 1%nat /\ heap demo_world !! 1%nat = Some demo_file
   /\ canWrite (flag rewound_handle) = true /\ isAppend (flag rewound_handle) = false)
  /\ File_WriteAt demo_world rewound_handle [x58] 5 =
      Ret (with_heap demo_world
             (<[1%nat := set_content demo_file [x61; x62; x00; x00; x00; x58]]>
                (heap demo_world)),
           with_crws rewound_handle (Some (mkCrws (Some 1%nat) 6)), 1, None).
Proof.
  split; [repeat split|].
  exact (proj2 (C3_WriteAt_is_Write_at_the_offset demo_world rewound_handle [x58] 5
                  1%nat demo_file (mkCrws (Some 1%nat) 0)
                  eq_refl eq_refl eq_refl eq_refl eq_refl eq_refl eq_refl eq_refl
                  ltac:(vm_compute; discriminate) ltac:(vm_compute; discriminate))).
Defined.


(** ** Reading *)

(** What [Read] does on a readable, open handle over a live file: the test
    for the end of the data compares the cursor with the length of the
    buffer. *)
Lemma File_Read_spec w f p l n c :
  node f = Some l -> heap w !! l = Some n -> unlinked n = false ->
  canRead (flag f) = true -> closed f = false ->
  crws f = Some c -> owner c = Some l ->
  (len p <= pos c -> File_Read w f p = Ret (f, p, 0, Some (Bare EOF)))
  /\ (pos c < len p -> 0 <= pos c <= len (content n) ->
      File_Read w f p =
        Ret (with_crws f (Some (mkCrws (Some l)
                                  (pos c + snd (go_copy p (drop (Z.to_nat (pos c)) (content n)))))),
             fst (go_copy p (drop (Z.to_nat (pos c)) (content n))),
             snd (go_copy p (drop (Z.to_nat (pos c)) (content n))), None))
  /\ (pos c < len p -> len (content n) < pos c ->
      File_Read w f p = Panic SliceBoundsOutOfRange).
Proof.
  intros Hn Hl Hu Hr Hc Hcr Ho.
  assert (E : File_Read w f p =
              '(c', p', k, e) ← crws_read w c p; Ret (with_crws f (Some c'), p', k, e)).
  { unfold File_Read, deref. rewrite Hn, Hl. cbn. rewrite Hu, Hr, Hc, Hcr. cbn.
    unfold deref. rewrite Ho, Hl. cbn. by destruct (crws_read w c p) as [[[[??]?]?]| |]. }
  rewrite E. unfold crws_read, getContent, deref. rewrite Ho, Hl. cbn.
  split; [|split].
  - intros H. destruct (len p <=? pos c) eqn:E1; [|lia]. cbn.
    destruct f; cbn in *. by rewrite Hcr.
  - intros H1 H2. destruct (len p <=? pos c) eqn:E1; [lia|].
    unfold slice_from. destruct (pos c <? 0) eqn:E2; [lia|].
    destruct (len (content n) <? pos c) eqn:E3; [lia|]. cbn.
    by destruct (go_copy p (drop (Z.to_nat (pos c)) (content n))).
  - intros H1 H2. destruct (len p <=? pos c) eqn:E1; [lia|].
    unfold slice_from. destruct (pos c <? 0) eqn:E2; [done|].
    destruct (len (content n) <? pos c) eqn:E3; [done|lia].
Qed.

(** C1. The code ends the data where the buffer ends, not where the content
    does: a ten-byte file read through a four-byte buffer gives four bytes,
    and the next [Read], with the cursor at 4 and six bytes unread, copies
    nothing and returns [io.EOF]. *)
Theorem C1_Read_ends_the_data_at_the_buffer_length :
  exists w f c,
    chunked_read_scenario = Ret (w, f)
    /\ crws f = Some c /\ pos c = 4
    /\ getContent w (owner c) = Ret ten_digits
    /\ canRead (flag f) = true /\ closed f = false
    /\ File_Read w f (zeros 4) = Ret (f, zeros 4, 0, Some (Bare EOF)).
Proof.
  do 3 eexists. split; [vm_compute; reflexivity|].
  repeat split; vm_compute; reflexivity.
Qed.

(** ** Handles on directories *)

Lemma OpenFile_directory w path flg pm parent e en :
  getEntry w path = Ret (parent, Some e, EmptyString, None) ->
  heap w !! e = Some en -> isDir en = true ->
  OpenFile w path flg pm =
    Ret (fst (getNextFileDescriptor w),
         Some (mkFile (Some e) flg (nextFD w) None false 0 0 0), None).
Proof.
  intros Hg Hl Hd. unfold OpenFile. rewrite Hg. cbn.
  unfold deref. rewrite Hl. cbn. by rewrite Hd.
Qed.

Lemma no_engine_panics w f n :
  deref w (node f) = Ret n -> unlinked n = false -> closed f = false ->
  crws f = None ->
  (forall off wh, File_Seek w f off wh = Panic NilDereference)
  /\ (canRead (flag f) = true ->
      (forall p, File_Read w f p = Panic NilDereference)
      /\ (forall p off, 0 <= off -> File_ReadAt w f p off = Panic NilDereference))
  /\ (canWrite (flag f) = true ->
      (forall p, File_Write w f p = Panic NilDereference)
      /\ (forall p off, isAppend (flag f) = false -> 0 <= off ->
            File_WriteAt w f p off = Panic NilDereference)).
Proof.
  intros Hn Hu Hc Hcr. split; [|split].
  - intros. unfold File_Seek. rewrite Hn. cbn. by rewrite Hu, Hc, Hcr.
  - intros Hr. split; intros.
    + unfold File_Read. rewrite Hn. cbn. by rewrite Hu, Hr, Hc, Hcr.
    + unfold File_ReadAt. rewrite Hn. cbn. rewrite Hu, Hr, Hc, Hcr. cbn.
      unfold crws_ReadAt. by destruct (off <? 0) eqn:E; [lia|].
  - intros Hw. split; intros.
    + unfold File_Write. rewrite Hn. cbn. by rewrite Hu, Hw, Hc, Hcr.
    + unfold File_WriteAt. rewrite Hn. cbn. rewrite Hu, Hw, H, Hc, Hcr. cbn.
      unfold crws_WriteAt. by destruct (off <? 0) eqn:E; [lia|].
Qed.

(** C2. A handle opened on the directory [/tmp] has no content engine, and
    [Read], [ReadAt], [Write], [WriteAt] and [Seek] on it do not return an
    error: each panics on the nil engine. *)
Theorem C2_content_operations_on_a_directory_handle_panic :
  exists w d n,
    directory_handle_scenario = Ret (w, d)
    /\ deref w (node d) = Ret n /\ isDir n = true /\ crws d = None
    /\ File_Read w d (zeros 4) = Panic NilDereference
    /\ File_ReadAt w d (zeros 4) 0 = Panic NilDereference
    /\ File_Write w d [x58] = Panic NilDereference
    /\ File_WriteAt w d [x58] 0 = Panic NilDereference
    /\ File_Seek w d 0 SeekStart = Panic NilDereference.
Proof.
  do 3 eexists. split; [vm_compute; reflexivity|].
  repeat split; vm_compute; reflexivity.
Qed.

(** ** The root path *)

(** C9. For every store, resolving ["/"] returns the root as parent and no
    target, so [Stat] succeeds with a [FileInfo] whose node is nil; [Name],
    [Size], [Mode], [ModTime] and [IsDir] on it dereference nil. *)
Theorem C9_Stat_of_the_root_has_no_node :
  forall w,
    getEntry w "/" = Ret (root w, None, EmptyString, None)
    /\ Stat w "/" = Ret (mkFileInfo None, None)
    /\ FileInfo_Name w (mkFileInfo None) = Panic NilDereference
    /\ FileInfo_Size w (mkFileInfo None) = Panic NilDereference
    /\ FileInfo_Mode w (mkFileInfo None) = Panic NilDereference
    /\ FileInfo_ModTime w (mkFileInfo None) = Panic NilDereference
    /\ FileInfo_IsDir w (mkFileInfo None) = Panic NilDereference.
Proof. intros w. repeat split. Qed.

(** ** [MkdirAll] and relative paths *)

Lemma strings_Split_head s a sep :
  Ascii.eqb a sep = false ->
  exists h t, strings_Split (String a s) sep = String a h :: t.
Proof.
  intros H. cbn. rewrite H. destruct (strings_Split s sep); eauto.
Qed.

(** Every non-empty path that does not begin with the separator is refused,
    whatever the working directory, and the store is left as it was. *)
Lemma MkdirAll_refuses_nonempty_relative w path pm :
  path <> EmptyString -> filepath_IsAbs path = false ->
  MkdirAll w path pm = Ret (w, Some (Errorf "invalid path" path ErrInvalid)).
Proof.
  intros Hne Hrel. destruct path as [|a s]; [done|].
  unfold MkdirAll. destruct (ValidPath (String a s)); [|done]. cbn [negb].
  cbn in Hrel. destruct (strings_Split_head s a Separator Hrel) as (h & t & ->).
  done.
Qed.

(** [MkdirAll] walks the segments as written: ["."] becomes a directory of
    that name, which the cleaned path does not reach. *)
Example MkdirAll_does_not_clean :
  (w ← New "/home/u" 7;
   '(w, e) ← MkdirAll w "/a/./b" ModePerm;
   '(_, dot, _, _) ← getEntry w "/a/x/../../a/.";
   '(_, entry, missing, _) ← getEntry w "/a/./b";
   a ← deref w dot;
   Ret (e, lookup_entry a ".", lookup_entry a "b", entry, missing))
  = Ret (None, Some 5%nat, None, None, "b").
Proof. vm_compute. reflexivity. Qed.

(** C10. The empty path is relative, and [MkdirAll] does not fail on it:
    it returns no error and leaves the store as it was. *)
Theorem C10_MkdirAll_accepts_the_empty_path :
  forall w pm,
    filepath_IsAbs EmptyString = false
    /\ ValidPath EmptyString = true
    /\ MkdirAll w EmptyString pm = Ret (w, None).
Proof. intros w pm. repeat split. Qed.

(** ** Temporary names *)

(** [MkdirTemp] does retry: after a first call drew ["abcdefgh"], a second
    call that draws it again goes on to the next draw. *)
Example MkdirTemp_retries_on_collision :
  (w ← New "/home/u" 7;
   '(w, d1, _) ← MkdirTemp w "/tmp" "f*" ["abcdefgh"];
   '(w, d2, _) ← MkdirTemp w "/tmp" "f*" ["abcdefgh"; "abcdefgi"];
   Ret (d1, d2))
  = Ret ("/tmp/fabcdefgh", "/tmp/fabcdefgi").
Proof. vm_compute. reflexivity. Qed.

Lemma CreateTemp_missing_directory w dir pattern draws parent missing :
  dir <> EmptyString ->
  getEntry w dir = Ret (parent, None, missing, None) ->
  CreateTemp w dir pattern draws
  = Ret (w, None, Some (Errorf "dir does not exist" dir ErrNotExist)).
Proof.
  intros Hne Hg. unfold CreateTemp.
  destruct (String.eqb_spec dir EmptyString); [done|]. by rewrite Hg.
Qed.

(** An error of the resolution itself is returned as it is. *)
Lemma CreateTemp_resolution_error w dir pattern draws parent entry missing e :
  dir <> EmptyString ->
  getEntry w dir = Ret (parent, entry, missing, Some e) ->
  CreateTemp w dir pattern draws = Ret (w, None, Some e).
Proof.
  intros Hne Hg. unfold CreateTemp.
  destruct (String.eqb_spec dir EmptyString); [done|]. by rewrite Hg.
Qed.

Lemma MkdirTemp_missing_directory w dir pattern draws parent missing :
  dir <> EmptyString ->
  getEntry w dir = Ret (parent, None, missing, None) ->
  MkdirTemp w dir pattern draws
  = Ret (w, EmptyString, Some (Errorf "dir does not exist" dir ErrNotExist)).
Proof.
  intros Hne Hg. unfold MkdirTemp.
  destruct (String.eqb_spec dir EmptyString); [done|]. by rewrite Hg.
Qed.

Lemma Mkdir_failure_keeps_the_store w path pm w' e :
  Mkdir w path pm = Ret (w', Some e) -> w' = w.
Proof.
  unfold Mkdir. intros H.
  destruct (getEntry w path) as [[[[parent entry] missing] err]| |]; cbn in H; [|done..].
  destruct err; [by inversion H|]. destruct entry; [by inversion H|].
  destruct (String.eqb missing EmptyString); [done|].
  destruct (more_than_one_missing missing); [by inversion H|].
  destruct (deref w parent); cbn in H; [|done..].
  match type of H with
  | context [assign_entry ?a ?b ?c ?d] => by destruct (assign_entry a b c d)
  end.
Qed.

Lemma Mkdir_success_was_absent w path pm w' :
  Mkdir w path pm = Ret (w', None) ->
  exists parent missing, getEntry w path = Ret (parent, None, missing, None).
Proof.
  unfold Mkdir. intros H.
  destruct (getEntry w path) as [[[[parent entry] missing] err]| |]; cbn in H; [|done..].
  destruct err; [done|]. destruct entry; [done|]. eauto.
Qed.

(** The name [MkdirTemp] returns comes from one of the draws and resolved to
    no node in the store the call started from. *)
Lemma MkdirTemp_loop_returns_an_absent_name draws :
  forall w dir pattern w' tDir,
    MkdirTemp_loop w dir pattern draws = Ret (w', tDir, None) ->
    exists r parent missing,
      r ∈ draws
      /\ tDir = filepath_Join [dir; createRandomPathPart pattern r]
      /\ getEntry w tDir = Ret (parent, None, missing, None).
Proof.
  induction draws as [|r draws IH]; intros w dir pattern w' tDir H; [done|].
  cbn [MkdirTemp_loop] in H.
  destruct (Mkdir w (filepath_Join [dir; createRandomPathPart pattern r]) ModePerm)
    as [[w1 [e|]]| |] eqn:Hm; cbn in H; [| |done..].
  - apply Mkdir_failure_keeps_the_store in Hm as ->.
    destruct (IH _ _ _ _ _ H) as (r' & parent & missing & Hin & Ht & Hg).
    exists r', parent, missing. split; [by right|done].
  - inversion H; subst.
    destruct (Mkdir_success_was_absent _ _ _ _ Hm) as (parent & missing & Hg).
    exists r, parent, missing. split; [by left|done].
Qed.

(** C6. [CreateTemp] does not retry on a collision: when the second call
    draws the string the first one drew, it returns at once, with a handle
    on the very file the first call made, emptied of what had been written
    to it; the directory holds one name after the two calls. *)
Theorem C6_CreateTemp_returns_a_name_already_present :
  exists w f1 f2,
    same_draw_scenario = Ret (w, f1, f2)
    /\ node f1 = node f2
    /\ File_Name w f1 = Ret "fabcdefgh"
    /\ File_Name w f2 = Ret "fabcdefgh"
    /\ getContent w (node f1) = Ret []
    /\ ('(_, tmp, _, _) ← getEntry w "/tmp"; getEntryNames w tmp) = Ret ["fabcdefgh"].
Proof.
  do 3 eexists. split; [vm_compute; reflexivity|].
  repeat split; vm_compute; reflexivity.
Qed.

(** ** Directory listings *)

Lemma page_spec_ok {A} (all : list A) (names : list string) (i n : Z) :
  length all = length names -> 0 <= i <= len all ->
  page all names i n = Ret (page_spec all i n).
Proof.
  intros Hlen Hi. unfold page, page_spec, len in *. rewrite <- Hlen.
  destruct ((n <? 0) || (Z.of_nat (length all) <=? n)) eqn:E; [done|].
  apply orb_false_iff in E as [E1 E2].
  apply Z.ltb_ge in E1. apply Z.leb_gt in E2.
  unfold slice_from, len.
  destruct (Z.ltb_spec i 0); [lia|].
  destruct (Z.ltb_spec (Z.of_nat (length all)) i); [lia|]. cbn.
  rewrite length_drop.
  destruct (Z.ltb_spec n (Z.of_nat (length all - Z.to_nat i)));
    destruct (Z.leb_spec (Z.of_nat (length all) - i) n); try lia.
  - unfold slice_to, len. rewrite length_drop.
    destruct (Z.ltb_spec n 0); [lia|].
    destruct (Z.ltb_spec (Z.of_nat (length all - Z.to_nat i)) n); [lia|]. done.
  - done.
Qed.

Lemma listing_guard_open w f l nd :
  node f = Some l -> heap w !! l = Some nd -> unlinked nd = false ->
  closed f = false -> isDir nd = true ->
  listing_guard w f = Ret (nd, None).
Proof.
  intros Hn Hl Hu Hc Hd. unfold listing_guard, deref. rewrite Hn, Hl. cbn.
  by rewrite Hu, Hc, Hd.
Qed.

(** C4, as stated, fails: with three entries and the index at 1, so that two
    entries remain, a request for [-1] returns all three and leaves the index
    at 1. *)
Lemma C4_negative_count_returns_the_whole_listing :
  exists w f f',
    listing_scenario = Ret (w, f)
    /\ getEntryNames w (node f) = Ret ["a"; "b"; "c"]
    /\ indexReaddirnames f = 1
    /\ File_Readdirnames w f (-1) = Ret (f', ["a"; "b"; "c"], None)
    /\ indexReaddirnames f' = 1.
Proof.
  do 3 eexists. split; [vm_compute; reflexivity|].
  repeat split; vm_compute; reflexivity.
Qed.

(** C4, amended. On an open handle over a live directory, each listing view
    with index [i] over [total] entries, [0 <= i <= total], answers a
    request for [n] as follows: if [n < 0] or [n >= total] it returns the
    whole listing and leaves the index as it was; otherwise, if [n] is at
    least the [total - i] entries remaining, it returns those and resets
    the index to 0; otherwise it returns the next [n] entries and advances
    the index by [n]. *)
Theorem C4_listing_views_page_by_the_total :
  forall w f n l nd m,
    node f = Some l -> heap w !! l = Some nd -> unlinked nd = false ->
    closed f = false -> entries nd = Some m ->
    let names := names_of m in
    let dirEntries := map (fun nm => mkDirEntry (m !! nm)) names in
    let fileInfos := map (fun nm => mkFileInfo (m !! nm)) names in
    (0 <= indexReadDir f <= len names ->
     File_ReadDir w f n =
       Ret (with_indexReadDir f (fst (page_spec dirEntries (indexReadDir f) n)),
            snd (page_spec dirEntries (indexReadDir f) n), None))
    /\ (0 <= indexReaddir f <= len names ->
        File_Readdir w f n =
          Ret (with_indexReaddir f (fst (page_spec fileInfos (indexReaddir f) n)),
               snd (page_spec fileInfos (indexReaddir f) n), None))
    /\ (0 <= indexReaddirnames f <= len names ->
        File_Readdirnames w f n =
          Ret (with_indexReaddirnames f (fst (page_spec names (indexReaddirnames f) n)),
               snd (page_spec names (indexReaddirnames f) n), None)).
Proof.
  intros w f n l nd m Hn Hl Hu Hc He names dirEntries fileInfos.
  assert (Hd : isDir nd = true) by (unfold isDir; by rewrite He).
  assert (Hg := listing_guard_open w f l nd Hn Hl Hu Hc Hd).
  assert (Hnames : getEntryNames w (node f) = Ret names).
  { unfold getEntryNames, deref. rewrite Hn, Hl. cbn. by rewrite He. }
  assert (Hlook : forall nm, lookup_entry nd nm = m !! nm).
  { intros nm. unfold lookup_entry. by rewrite He. }
  split; [|split]; intros Hi.
  - unfold File_ReadDir. rewrite Hg. cbn. rewrite Hnames. cbn.
    rewrite (map_ext _ (fun nm => mkDirEntry (m !! nm)))
      by (intros; by rewrite Hlook).
    fold dirEntries. rewrite page_spec_ok.
    + cbn. by destruct (page_spec dirEntries (indexReadDir f) n).
    + subst dirEntries. by rewrite length_map.
    + subst dirEntries. unfold len in *. by rewrite length_map.
  - unfold File_Readdir. rewrite Hg. cbn. rewrite Hnames. cbn.
    rewrite (map_ext _ (fun nm => mkFileInfo (m !! nm)))
      by (intros; by rewrite Hlook).
    fold fileInfos. rewrite page_spec_ok.
    + cbn. by destruct (page_spec fileInfos (indexReaddir f) n).
    + subst fileInfos. by rewrite length_map.
    + subst fileInfos. unfold len in *. by rewrite length_map.
  - unfold File_Readdirnames. rewrite Hg. cbn. rewrite Hnames. cbn.
    rewrite page_spec_ok by done.
    cbn. by destruct (page_spec names (indexReaddirnames f) n).
Qed.

Lemma C4_witness :
  (node demo_dir_handle = Some 1%nat /\ heap demo_dir_world !! 1%nat = Some demo_dir
   /\ names_of demo_children = ["a"; "b"; "c"])
  /\ File_Readdirnames demo_dir_world demo_dir_handle 1
     = Ret (with_indexReaddirnames demo_dir_handle 2, ["b"], None)
  /\ File_Readdirnames demo_dir_world demo_dir_handle 2
     = Ret (with_indexReaddirnames demo_dir_handle 0, ["b"; "c"], None)
  /\ File_Readdirnames demo_dir_world demo_dir_handle 3
     = Ret (with_indexReaddirnames demo_dir_handle 1, ["a"; "b"; "c"], None).
Proof.
  split; [repeat split|].
  pose proof (fun n => proj2 (proj2 (C4_listing_views_page_by_the_total
                demo_dir_world demo_dir_handle n 1%nat demo_dir demo_children
                eq_refl eq_refl eq_refl eq_refl eq_refl))
                ltac:(vm_compute; split; discriminate)) as H.
  exact (conj (H 1) (conj (H 2) (H 3))).
Defined.

(** ** Removal *)

Lemma getEntry_walk_early w cur parts p e m err :
  getEntry_walk w cur parts = Ret (inl (p, e, m, err)) -> e = None.
Proof.
  revert cur. induction parts as [|part rest IH]; intros cur H; cbn in H; [done|].
  destruct (deref w cur) as [cn| |]; cbn in H; try done.
  destruct (lookup_entry cn part) as [x|].
  - destruct (heap w !! x) as [en|]; cbn in H; [|done].
    destruct (negb (isDir en)); [|by apply IH in H].
    inversion H; by subst.
  - inversion H; by subst.
Qed.

(** A target is only ever found by the last lookup of [getEntry], in a
    directory that is there. *)
Lemma getEntry_found w path parent e m err :
  getEntry w path = Ret (parent, Some e, m, err) ->
  m = EmptyString /\ err = None
  /\ exists pn last, deref w parent = Ret pn /\ lookup_entry pn last = Some e.
Proof.
  unfold getEntry. intros H.
  destruct (negb (ValidPath path)); [done|].
  destruct (filepath_Split (getAbsolutePath w path)) as [parentDir lastEntry].
  destruct (String.eqb parentDir "/" && String.eqb lastEntry EmptyString); [done|].
  destruct (if String.eqb parentDir "/" then [EmptyString]
            else strings_Split (filepath_Clean parentDir) Separator)
    as [|first parts]; [done|].
  destruct (negb (String.eqb first EmptyString)); [done|].
  destruct (getEntry_walk w (root w) parts) as [[early|current]| |] eqn:Hw;
    cbn in H; try done.
  - destruct early as [[[p' e'] m'] err']. inversion H; subst.
    by apply getEntry_walk_early in Hw.
  - destruct (deref w current) as [cn| |] eqn:Hc; cbn in H; try done.
    destruct (lookup_entry cn lastEntry) as [x|] eqn:Hx; inversion H; subst.
    repeat split. by exists cn, lastEntry.
Qed.

Lemma detach_spec w p e en w1 :
  deref w e = Ret en -> detach w p e = Ret w1 ->
  exists en1 pn1,
    deref w1 e = Ret en1 /\ unlinked en1 = true
    /\ (entries en1 = entries en \/ entries en1 = delete (name en) <$> entries en)
    /\ deref w1 p = Ret pn1 /\ lookup_entry pn1 (name en) = None.
Proof.
  intros He Hd. destruct e as [le|]; [|done]. destruct p as [lp|]; [|done].
  unfold detach, delete_entry, modify, deref in *.
  destruct (heap w !! lp) as [pn|] eqn:Hp; [|done].
  destruct (heap w !! le) as [x|] eqn:Hl; [|done]. inversion He; subst x.
  cbn in Hd. rewrite lookup_insert_eq in Hd. cbn in Hd.
  destruct (decide (le = lp)) as [->|Hne].
  - rewrite lookup_insert_eq in Hd. cbn in Hd. inversion Hd; subst w1. cbn.
    rewrite lookup_insert_eq. eexists _, _. repeat split; [by right|].
    unfold lookup_entry. cbn. destruct (entries en); [|done]. cbn.
    apply lookup_delete_eq.
  - rewrite lookup_insert_ne in Hd by done. rewrite Hp in Hd. cbn in Hd.
    inversion Hd; subst w1. cbn.
    rewrite lookup_insert_ne by done. rewrite !lookup_insert_eq.
    eexists _, _. repeat split; [by left|].
    unfold lookup_entry. cbn. destruct (entries pn); [|done]. cbn.
    apply lookup_delete_eq.
Qed.

Lemma detach_succeeds w p e pn en :
  deref w p = Ret pn -> deref w e = Ret en -> exists w1, detach w p e = Ret w1.
Proof.
  intros Hp He. destruct e as [le|]; [|done]. destruct p as [lp|]; [|done].
  unfold detach, delete_entry, modify, deref in *.
  destruct (heap w !! lp) as [x|] eqn:Hlp; [|done].
  destruct (heap w !! le) as [y|] eqn:Hle; [|done]. cbn.
  rewrite lookup_insert_eq. cbn.
  destruct (decide (le = lp)) as [->|Hne].
  - rewrite lookup_insert_eq. cbn. eauto.
  - rewrite lookup_insert_ne by done. rewrite Hlp. cbn. eauto.
Qed.

Lemma empty_directory_children en :
  isDir en = true -> (len_entries en =? 0) = true -> entries en = Some ∅.
Proof.
  unfold isDir, len_entries. destruct (entries en) as [m|]; [|done].
  intros _ H. f_equal. apply map_size_empty_iff. lia.
Qed.

Lemma RemoveAll_Remove fuel w path :
  RemoveAll (S fuel) w path = Remove w path.
Proof.
  cbn [RemoveAll]. unfold Remove.
  destruct (getEntry w path) as [[[[parent entry] missing] err]| |]; cbn; try done.
  destruct err; [done|]. destruct (negb (String.eqb missing EmptyString)); [done|].
  destruct (deref w entry) as [en| |] eqn:He; cbn; try done.
  destruct (isDir en) eqn:Hd; [|done].
  destruct (len_entries en =? 0) eqn:Hz; [|done].
  destruct (detach w parent entry) as [w1| |] eqn:Hdet; cbn; try done.
  destruct (detach_spec w parent entry en w1 He Hdet)
    as (en1 & pn1 & H1 & _ & Hen & _).
  rewrite H1. cbn.
  rewrite (empty_directory_children en Hd Hz) in Hen.
  destruct Hen as [->| ->]; cbn.
  - by rewrite map_to_list_empty.
  - by rewrite delete_empty, map_to_list_empty.
Qed.

(** C5. With any fuel at all, [RemoveAll] returns what [Remove] returns,
    store and error alike, on every store and path.  When the path resolves
    to a node, a file or a directory without children is detached (marked
    unlinked and taken out of its parent's children), and a directory with
    children is refused with InvalidPath, the store unchanged. *)
Theorem C5_RemoveAll_behaves_as_Remove :
  (forall fuel w path, RemoveAll (S fuel) w path = Remove w path)
  /\ (forall w path parent e en,
        getEntry w path = Ret (parent, Some e, EmptyString, None) ->
        heap w !! e = Some en ->
        if isDir en && negb (len_entries en =? 0)
        then Remove w path
             = Ret (w, Some (Errorf "directory not empty" path ErrInvalid))
        else exists w' en' pn',
               Remove w path = Ret (w', None)
               /\ deref w' (Some e) = Ret en' /\ unlinked en' = true
               /\ deref w' parent = Ret pn'
               /\ lookup_entry pn' (name en) = None).
Proof.
  split; [apply RemoveAll_Remove|].
  intros w path parent e en Hg Hl.
  destruct (getEntry_found _ _ _ _ _ _ Hg) as (_ & _ & pn & last & Hp & _).
  assert (He : deref w (Some e) = Ret en) by (unfold deref; by rewrite Hl).
  destruct (detach_succeeds w parent (Some e) pn en Hp He) as [w1 Hd].
  destruct (detach_spec w parent (Some e) en w1 He Hd)
    as (en1 & pn1 & H1 & H2 & _ & H3 & H4).
  unfold Remove. rewrite Hg. cbn [mbind result_bind]. cbn [negb String.eqb].
  rewrite He. cbn [mbind result_bind].
  destruct (isDir en); cbn [andb];
    [destruct (len_entries en =? 0); cbn [negb]|]; try done;
    rewrite Hd; cbn; by exists w1, en1, pn1.
Qed.

Lemma C5_witness :
  (getEntry demo_world "/a" = Ret (Some 0%nat, Some 1%nat, EmptyString, None)
   /\ heap demo_world !! 1%nat = Some demo_file)
  /\ RemoveAll 1 demo_world "/a" = Remove demo_world "/a"
  /\ exists w' en' pn',
       Remove demo_world "/a" = Ret (w', None)
       /\ deref w' (Some 1%nat) = Ret en' /\ unlinked en' = true
       /\ deref w' (Some 0%nat) = Ret pn'
       /\ lookup_entry pn' "a" = None.
Proof.
  split; [split; vm_compute; reflexivity|].
  split.
  - exact (proj1 C5_RemoveAll_behaves_as_Remove 0%nat demo_world "/a").
  - exact (proj2 C5_RemoveAll_behaves_as_Remove demo_world "/a"
             (Some 0%nat) 1%nat demo_file eq_refl eq_refl).
Defined.

(** ** Handles on removed nodes *)

Lemma Remove_unlinks w path w' parent e :
  getEntry w path = Ret (parent, Some e, EmptyString, None) ->
  Remove w path = Ret (w', None) ->
  exists en', deref w' (Some e) = Ret en' /\ unlinked en' = true.
Proof.
  intros Hg Hr. unfold Remove in Hr. rewrite Hg in Hr. cbn in Hr.
  destruct (heap w !! e) as [en|] eqn:Hl; [|done]. cbn in Hr.
  assert (He : deref w (Some e) = Ret en) by (unfold deref; by rewrite Hl).
  assert (Hd : exists w1, detach w parent (Some e) = Ret w1 /\ w' = w1).
  { destruct (isDir en); [destruct (len_entries en =? 0); [|done]|];
      destruct (detach w parent (Some e)) as [w1| |]; cbn in Hr; try done;
      inversion Hr; eauto. }
  destruct Hd as (w1 & Hd & ->).
  destruct (detach_spec w parent (Some e) en w1 He Hd) as (en1 & ? & ? & ? & _).
  eauto.
Qed.

(** C8. After a successful [Remove] of a path that resolved to a node,
    [Read], [ReadAt], [Write], [WriteAt], [Seek], [Stat], [ReadDir],
    [Readdir] and [Readdirnames] on any handle on that node return the
    "file unlinked" error and change nothing, whatever the handle's flags
    and state; [Close] on a handle not yet closed succeeds. *)
Theorem C8_operations_on_a_removed_node_fail :
  forall w path w' parent e,
    getEntry w path = Ret (parent, Some e, EmptyString, None) ->
    Remove w path = Ret (w', None) ->
    exists en',
      deref w' (Some e) = Ret en' /\ unlinked en' = true
      /\ forall f, node f = Some e ->
           let stale := Some (Errorf "file unlinked" (name en') ErrInvalid) in
           errors_Is stale ErrInvalid = true
           /\ (forall p, File_Read w' f p = Ret (f, p, 0, stale))
           /\ (forall p off, File_ReadAt w' f p off = Ret (f, p, 0, stale))
           /\ (forall p, File_Write w' f p = Ret (w', f, 0, stale))
           /\ (forall p off, File_WriteAt w' f p off = Ret (w', f, 0, stale))
           /\ (forall off whence, File_Seek w' f off whence = Ret (f, 0, stale))
           /\ File_Stat w' f = Ret (mkFileInfo None, stale)
           /\ (forall n, File_ReadDir w' f n = Ret (f, [], stale))
           /\ (forall n, File_Readdir w' f n = Ret (f, [], stale))
           /\ (forall n, File_Readdirnames w' f n = Ret (f, [], stale))
           /\ (closed f = false -> File_Close w' f = Ret (with_closed f true, None)).
Proof.
  intros w path w' parent e Hg Hr.
  destruct (Remove_unlinks w path w' parent e Hg Hr) as (en' & Hd & Hu).
  exists en'. split; [done|]. split; [done|].
  intros f Hn stale.
  assert (Hguard : listing_guard w' f = Ret (en', stale)).
  { unfold listing_guard. rewrite Hn, Hd. cbn. by rewrite Hu. }
  repeat split; intros.
  - unfold File_Read. rewrite Hn, Hd. cbn. by rewrite Hu.
  - unfold File_ReadAt. rewrite Hn, Hd. cbn. by rewrite Hu.
  - unfold File_Write. rewrite Hn, Hd. cbn. by rewrite Hu.
  - unfold File_WriteAt. rewrite Hn, Hd. cbn. by rewrite Hu.
  - unfold File_Seek. rewrite Hn, Hd. cbn. by rewrite Hu.
  - unfold File_Stat. rewrite Hn, Hd. cbn. by rewrite Hu.
  - unfold File_ReadDir. by rewrite Hguard.
  - unfold File_Readdir. by rewrite Hguard.
  - unfold File_Readdirnames. by rewrite Hguard.
  - unfold File_Close. by rewrite H.
Qed.

Lemma C8_witness :
  (getEntry before_removal "/tmp/a" = Ret (Some 1%nat, Some 4%nat, EmptyString, None)
   /\ Remove before_removal "/tmp/a" = Ret (after_removal, None)
   /\ node removed_handle = Some 4%nat /\ closed removed_handle = false)
  /\ exists en',
       deref after_removal (Some 4%nat) = Ret en' /\ unlinked en' = true
       /\ forall f, node f = Some 4%nat ->
            let stale := Some (Errorf "file unlinked" (name en') ErrInvalid) in
            errors_Is stale ErrInvalid = true
            /\ (forall p, File_Read after_removal f p = Ret (f, p, 0, stale))
            /\ (forall p off, File_ReadAt after_removal f p off = Ret (f, p, 0, stale))
            /\ (forall p, File_Write after_removal f p = Ret (after_removal, f, 0, stale))
            /\ (forall p off,
                  File_WriteAt after_removal f p off = Ret (after_removal, f, 0, stale))
            /\ (forall off whence, File_Seek after_removal f off whence = Ret (f, 0, stale))
            /\ File_Stat after_removal f = Ret (mkFileInfo None, stale)
            /\ (forall n, File_ReadDir after_removal f n = Ret (f, [], stale))
            /\ (forall n, File_Readdir after_removal f n = Ret (f, [], stale))
            /\ (forall n, File_Readdirnames after_removal f n = Ret (f, [], stale))
            /\ (closed f = false ->
                File_Close after_removal f = Ret (with_closed f true, None)).
Proof.
  assert (H1 : getEntry before_removal "/tmp/a"
               = Ret (Some 1%nat, Some 4%nat, EmptyString, None))
    by (vm_compute; reflexivity).
  assert (H2 : Remove before_removal "/tmp/a" = Ret (after_removal, None))
    by (vm_compute; reflexivity).
  split; [exact (conj H1 (conj H2 (conj eq_refl eq_refl)))|].
  exact (C8_operations_on_a_removed_node_fail
           before_removal "/tmp/a" after_removal (Some 1%nat) 4%nat H1 H2).
Defined.

(** * Further properties *)

Arguments deref : simpl never.
Arguments alloc : simpl never.
Arguments assign_entry : simpl never.
Arguments crws_Seek : simpl never.


Lemma deref_heap w l n : heap w !! l = Some n -> deref w (Some l) = Ret n.
Proof. intros H. unfold deref. by rewrite H. Qed.

Lemma node_grows_refl n : node_grows n n.
Proof. by repeat split. Qed.

Lemma node_grows_trans a b c : node_grows a b -> node_grows b c -> node_grows a c.
Proof.
  intros (?&?&?&?&?&?&Ha) (?&?&?&?&?&?&Hb).
  repeat split; try congruence. intros k v Hk. by apply Hb, Ha.
Qed.

Lemma grows_refl w : grows w w.
Proof. split; [done|]. intros l n H. exists n. split; [done|apply node_grows_refl]. Qed.

Lemma grows_trans a b c : grows a b -> grows b c -> grows a c.
Proof.
  intros [[Hr1 Hw1] H1] [[Hr2 Hw2] H2]. split; [split; congruence|].
  intros l n Hl. destruct (H1 l n Hl) as (n1 & Hl1 & G1).
  destruct (H2 l n1 Hl1) as (n2 & Hl2 & G2).
  exists n2. split; [done|]. by eapply node_grows_trans.
Qed.

Lemma alloc_fresh w n : heap w !! snd (alloc w n) = None.
Proof.
  unfold alloc. cbn [snd]. apply not_elem_of_dom. apply is_fresh.
Qed.

Lemma alloc_heap w n :
  heap (fst (alloc w n)) = <[snd (alloc w n) := n]> (heap w)
  /\ root (fst (alloc w n)) = root w.
Proof. done. Qed.

Lemma alloc_grows w n : grows w (fst (alloc w n)).
Proof.
  split; [done|]. intros l x Hl. exists x. split; [|apply node_grows_refl].
  destruct (alloc_heap w n) as [-> _].
  rewrite lookup_insert_ne; [done|]. intros <-. by rewrite alloc_fresh in Hl.
Qed.

Lemma assign_entry_spec w l n m key v :
  heap w !! l = Some n -> entries n = Some m ->
  assign_entry w (Some l) key v
  = Ret (with_heap w (<[l := set_entries n (Some (<[key := v]> m))]> (heap w))).
Proof.
  intros Hl He. unfold assign_entry, modify, deref. rewrite !Hl. cbn.
  rewrite He. cbn. by rewrite ?Hl.
Qed.

Lemma assign_entry_grows w l n m key v :
  heap w !! l = Some n -> entries n = Some m -> m !! key = None ->
  grows w (with_heap w (<[l := set_entries n (Some (<[key := v]> m))]> (heap w))).
Proof.
  intros Hl He Hk. split; [done|]. intros l' x Hx. cbn.
  destruct (decide (l = l')) as [<-|Hne].
  - rewrite lookup_insert_eq. rewrite Hl in Hx. inversion Hx; subst x.
    eexists. split; [done|]. repeat split; cbn.
    + unfold isDir. cbn. by rewrite He.
    + intros k u. unfold lookup_entry. cbn. rewrite He. intros Hku.
      rewrite lookup_insert_ne; [done|]. intros <-. congruence.
  - rewrite lookup_insert_ne by done. exists x. split; [done|apply node_grows_refl].
Qed.

Lemma grows_deref w w' p n :
  grows w w' -> deref w p = Ret n ->
  exists n', deref w' p = Ret n' /\ node_grows n n'.
Proof.
  intros [_ H] Hd. destruct p as [l|]; [|done]. unfold deref in *.
  destruct (heap w !! l) as [x|] eqn:Hl; [|done]. inversion Hd; subst x.
  destruct (H l n Hl) as (n' & -> & G). eauto.
Qed.

Lemma MkdirAll_walk_grows parts :
  forall w cur pm w' e,
    MkdirAll_walk w cur parts pm = Ret (w', e) -> grows w w'.
Proof.
  induction parts as [|part rest IH]; intros w cur pm w' e H; cbn in H.
  - inversion H. apply grows_refl.
  - destruct (deref w cur) as [cn| |] eqn:Hc; cbn in H; try done.
    destruct (lookup_entry cn part) as [x|] eqn:Hx.
    + destruct (deref w (Some x)) as [en| |]; cbn in H; try done.
      destruct (negb (isDir en)).
      * inversion H. apply grows_refl.
      * by eapply IH.
    + destruct cur as [lc|]; [|done]. unfold deref in Hc.
      destruct (heap w !! lc) as [y|] eqn:Hlc; [|done]. inversion Hc; subst y.
      destruct (alloc w (new_dir w part pm)) as [w1 l] eqn:Ha.
      assert (Hf : heap w !! l = None).
      { pose proof (alloc_fresh w (new_dir w part pm)) as F. by rewrite Ha in F. }
      assert (Hh : heap w1 = <[l := new_dir w part pm]> (heap w)).
      { pose proof (alloc_heap w (new_dir w part pm)) as [F _]. by rewrite Ha in F. }
      assert (G1 : grows w w1).
      { pose proof (alloc_grows w (new_dir w part pm)) as F. by rewrite Ha in F. }
      assert (Hlc1 : heap w1 !! lc = Some cn).
      { rewrite Hh, lookup_insert_ne; [done|]. intros <-. congruence. }
      unfold lookup_entry in Hx. destruct (entries cn) as [m|] eqn:Hm.
      * rewrite (assign_entry_spec w1 lc cn m part l Hlc1 Hm) in H. cbn in H.
        apply IH in H. eapply grows_trans; [exact G1|].
        eapply grows_trans; [|exact H]. by apply assign_entry_grows.
      * unfold assign_entry, deref in H. rewrite Hlc1 in H. cbn in H.
        by rewrite Hm in H.
Qed.

(** The step that makes a node and enters it in its parent. *)
Lemma alloc_assign w lc cn m key nd :
  heap w !! lc = Some cn -> entries cn = Some m ->
  exists l,
    alloc w nd = (with_heap w (<[l := nd]> (heap w)), l)
    /\ heap w !! l = None /\ l <> lc
    /\ assign_entry (with_heap w (<[l := nd]> (heap w))) (Some lc) key l
       = Ret (with_heap w (<[lc := set_entries cn (Some (<[key := l]> m))]>
                             (<[l := nd]> (heap w)))).
Proof.
  intros Hl He. exists (snd (alloc w nd)).
  pose proof (alloc_fresh w nd) as Hf.
  assert (Hne : snd (alloc w nd) <> lc) by (intros E; rewrite E in Hf; congruence).
  repeat split; try done.
  rewrite (assign_entry_spec _ lc cn m); try done.
  cbn. by rewrite lookup_insert_ne.
Qed.

Lemma MkdirAll_walk_again parts :
  forall w cur pm w',
    MkdirAll_walk w cur parts pm = Ret (w', None) ->
    forall w'', grows w' w'' -> MkdirAll_walk w'' cur parts pm = Ret (w'', None).
Proof.
  induction parts as [|part rest IH]; intros w cur pm w' H w'' G; cbn in H |- *;
    [done|].
  destruct (deref w cur) as [cn| |] eqn:Hc; cbn in H; try done.
  destruct (lookup_entry cn part) as [x|] eqn:Hx.
  - destruct (deref w (Some x)) as [en| |] eqn:Hen; cbn in H; try done.
    destruct (isDir en) eqn:Hd; cbn in H; [|done].
    assert (G0 : grows w w'') by (eapply grows_trans; [by eapply MkdirAll_walk_grows|done]).
    destruct (grows_deref _ _ _ _ G0 Hc) as (cn' & -> & Gc). cbn.
    destruct Gc as (_&_&_&_&_&_&Hk). rewrite (Hk _ _ Hx).
    destruct (grows_deref _ _ _ _ G0 Hen) as (en' & -> & Ge). cbn.
    destruct Ge as (_&_&_&_&_&Hd'&_). rewrite Hd', Hd. cbn.
    by eapply IH.
  - destruct cur as [lc|]; [|done]. unfold deref in Hc.
    destruct (heap w !! lc) as [y|] eqn:Hlc; [|done]. inversion Hc; subst y.
    unfold lookup_entry in Hx. destruct (entries cn) as [m|] eqn:Hm.
    + destruct (alloc_assign w lc cn m part (new_dir w part pm) Hlc Hm)
        as (l & Ha & Hf & Hne & Has).
      rewrite Ha in H. rewrite Has in H. cbn in H.
      set (w2 := with_heap w _) in H.
      assert (G2 : grows w2 w'')
        by (eapply grows_trans; [by eapply MkdirAll_walk_grows|done]).
      assert (Hc2 : deref w2 (Some lc)
                    = Ret (set_entries cn (Some (<[part := l]> m)))).
      { unfold deref, w2. cbn. by rewrite lookup_insert_eq. }
      assert (Hl2 : deref w2 (Some l) = Ret (new_dir w part pm)).
      { unfold deref, w2. cbn. rewrite lookup_insert_ne by done.
        by rewrite lookup_insert_eq. }
      destruct (grows_deref _ _ _ _ G2 Hc2) as (cn' & -> & Gc). cbn.
      destruct Gc as (_&_&_&_&_&_&Hk).
      rewrite (Hk part l) by (unfold lookup_entry; cbn; apply lookup_insert_eq).
      destruct (grows_deref _ _ _ _ G2 Hl2) as (en' & -> & Ge). cbn.
      destruct Ge as (_&_&_&_&_&Hd'&_). rewrite Hd'. cbn.
      by eapply IH.
    + destruct (alloc w (new_dir w part pm)) as [w1 l] eqn:Ha.
      assert (Hlc1 : heap w1 !! lc = Some cn).
      { pose proof (alloc_grows w (new_dir w part pm)) as [_ F]. rewrite Ha in F.
        destruct (F lc cn Hlc) as (n' & Hn' & Gn).
        cbn in Hn'. rewrite Hn'. f_equal.
        pose proof (alloc_heap w (new_dir w part pm)) as [F2 _]. rewrite Ha in F2.
        cbn in F2. rewrite F2 in Hn'.
        rewrite lookup_insert_ne in Hn'; [congruence|].
        intros E. pose proof (alloc_fresh w (new_dir w part pm)) as F3.
        rewrite Ha in F3. cbn in F3. rewrite E in F3. congruence. }
      unfold assign_entry, deref in H. rewrite Hlc1 in H. cbn in H.
      by rewrite Hm in H.
Qed.

(** X10. When [MkdirAll] has succeeded, the same call on the store it left
    succeeds again and leaves that store as it is. *)
Theorem X10_MkdirAll_twice w path pm w' :
  MkdirAll w path pm = Ret (w', None) -> MkdirAll w' path pm = Ret (w', None).
Proof.
  unfold MkdirAll. destruct (negb (ValidPath path)); [done|].
  destruct (strings_Split path Separator) as [|first rest]; [done|].
  destruct (negb (String.eqb first EmptyString)); [done|].
  destruct rest as [|r rest]; [by intros [= ->]|].
  intros H. assert (G := MkdirAll_walk_grows _ _ _ _ _ _ H).
  destruct G as [[-> _] _].
  eapply MkdirAll_walk_again; [exact H|apply grows_refl].
Qed.

Lemma closed_heap_step w lc cn m key nd l :
  closed_heap w -> heap w !! lc = Some cn -> entries cn = Some m ->
  heap w !! l = None -> (forall k, lookup_entry nd k = None) ->
  closed_heap (with_heap w (<[lc := set_entries cn (Some (<[key := l]> m))]>
                              (<[l := nd]> (heap w)))).
Proof.
  intros Hcl Hlc Hm Hf Hnd a n k v Ha Hk. cbn in *.
  assert (Hall : forall u, is_Some (heap w !! u) \/ u = l ->
            is_Some ((<[lc := set_entries cn (Some (<[key := l]> m))]>
                        (<[l := nd]> (heap w))) !! u)).
  { intros u [Hu| ->].
    - destruct (decide (lc = u)) as [<-|]; [by rewrite lookup_insert_eq|].
      rewrite lookup_insert_ne by done.
      destruct (decide (l = u)) as [<-|]; [by rewrite lookup_insert_eq|].
      by rewrite lookup_insert_ne.
    - destruct (decide (lc = l)) as [<-|]; [by rewrite lookup_insert_eq|].
      rewrite lookup_insert_ne by done. by rewrite lookup_insert_eq. }
  apply Hall.
  destruct (decide (lc = a)) as [<-|Hne].
  - rewrite lookup_insert_eq in Ha. inversion Ha; subst n.
    unfold lookup_entry in Hk. cbn in Hk.
    destruct (decide (key = k)) as [<-|Hkk].
    + rewrite lookup_insert_eq in Hk. inversion Hk. by right.
    + rewrite lookup_insert_ne in Hk by done. left.
      apply (Hcl lc cn k v Hlc). unfold lookup_entry. by rewrite Hm.
  - rewrite lookup_insert_ne in Ha by done.
    destruct (decide (l = a)) as [<-|Hla].
    + rewrite lookup_insert_eq in Ha. inversion Ha; subst n. by rewrite Hnd in Hk.
    + rewrite lookup_insert_ne in Ha by done. left. by apply (Hcl a n k v).
Qed.

Lemma new_dir_childless w nm pm k : lookup_entry (new_dir w nm pm) k = None.
Proof. unfold lookup_entry. cbn. apply lookup_empty. Qed.

Lemma new_file_childless w nm pm k : lookup_entry (new_file w nm pm) k = None.
Proof. done. Qed.

Lemma closed_heap_deref w l n k v :
  closed_heap w -> heap w !! l = Some n -> lookup_entry n k = Some v ->
  exists x, deref w (Some v) = Ret x.
Proof.
  intros Hcl Hl Hk. destruct (Hcl l n k v Hl Hk) as [x Hx].
  exists x. unfold deref. by rewrite Hx.
Qed.

(** From a directory of a closed heap, the loop of [MkdirAll] returns, and
    the heap it leaves is closed. *)
Lemma MkdirAll_walk_returns parts :
  forall w lc cn pm,
    closed_heap w -> heap w !! lc = Some cn -> isDir cn = true ->
    exists w' e, MkdirAll_walk w (Some lc) parts pm = Ret (w', e) /\ closed_heap w'.
Proof.
  induction parts as [|part rest IH]; intros w lc cn pm Hcl Hlc Hd; cbn.
  - by exists w, None.
  - rewrite (deref_heap _ _ _ Hlc). cbn.
    destruct (lookup_entry cn part) as [x|] eqn:Hx.
    + destruct (Hcl lc cn part x Hlc Hx) as [en Hen].
      rewrite (deref_heap _ _ _ Hen). cbn.
      destruct (isDir en) eqn:Hde; cbn.
      * by eapply IH.
      * by eexists _, _.
    + unfold isDir in Hd. destruct (entries cn) as [m|] eqn:Hm; [|done].
      destruct (alloc_assign w lc cn m part (new_dir w part pm) Hlc Hm)
        as (l & -> & Hf & Hne & ->). cbn.
      eapply IH with (cn := new_dir w part pm).
      * eapply closed_heap_step; try done; apply new_dir_childless.
      * cbn. rewrite lookup_insert_ne by done. apply lookup_insert_eq.
      * done.
Qed.

Lemma grows_intact_root w w' :
  grows w w' ->
  (exists l rn, root w = Some l /\ heap w !! l = Some rn /\ isDir rn = true) ->
  exists l rn, root w' = Some l /\ heap w' !! l = Some rn /\ isDir rn = true.
Proof.
  intros [[Hr _] G] (l & rn & H1 & H2 & H3). destruct (G l rn H2) as (rn' & H4 & Gn).
  exists l, rn'. repeat split; [congruence|done|].
  destruct Gn as (_&_&_&_&_&->&_). done.
Qed.

(** On an intact store [MkdirAll] returns, with or without an error, and
    leaves an intact store. *)
Lemma MkdirAll_keeps_intact w path pm :
  intact w -> exists w' e, MkdirAll w path pm = Ret (w', e) /\ intact w'.
Proof.
  intros Hi. unfold MkdirAll. destruct (negb (ValidPath path)); [by eexists _, _|].
  destruct (strings_Split path Separator) as [|first rest]; [by eexists _, _|].
  destruct (negb (String.eqb first EmptyString)); [by eexists _, _|].
  destruct rest as [|r rest]; [by eexists _, _|].
  destruct Hi as [(l & rn & Hr & Hl & Hd) Hcl].
  rewrite Hr.
  destruct (MkdirAll_walk_returns (r :: rest) w l rn pm Hcl Hl Hd)
    as (w' & e & H & Hcl').
  exists w', e. split; [done|]. split; [|done].
  eapply grows_intact_root; [by eapply MkdirAll_walk_grows|].
  by exists l, rn.
Qed.

Lemma getEntry_walk_returns parts :
  forall w lc cn,
    closed_heap w -> heap w !! lc = Some cn -> isDir cn = true ->
    (exists r, getEntry_walk w (Some lc) parts = Ret (inl r) /\ resolved w r)
    \/ (exists l n, getEntry_walk w (Some lc) parts = Ret (inr (Some l))
                    /\ heap w !! l = Some n /\ isDir n = true).
Proof.
  induction parts as [|part rest IH]; intros w lc cn Hcl Hlc Hd; cbn.
  - right. by exists lc, cn.
  - rewrite (deref_heap _ _ _ Hlc). cbn.
    destruct (lookup_entry cn part) as [x|] eqn:Hx.
    + destruct (Hcl lc cn part x Hlc Hx) as [en Hen].
      rewrite (deref_heap _ _ _ Hen). cbn.
      destruct (isDir en) eqn:Hde; cbn.
      * by eapply IH.
      * left. eexists. split; [done|]. by intros.
    + left. eexists. split; [done|]. intros _. split; [by exists lc, cn|done].
Qed.

Lemma getEntry_returns w path :
  intact w -> exists r, getEntry w path = Ret r /\ resolved w r.
Proof.
  intros [(l & rn & Hr & Hl & Hd) Hcl]. unfold getEntry.
  destruct (negb (ValidPath path)); [eexists; split; [done|by intros]|].
  destruct (filepath_Split (getAbsolutePath w path)) as [parentDir lastEntry].
  destruct (String.eqb parentDir "/" && String.eqb lastEntry EmptyString).
  { eexists. split; [done|]. intros _. split; [by exists l, rn|done]. }
  destruct (if String.eqb parentDir "/" then [EmptyString]
            else strings_Split (filepath_Clean parentDir) Separator)
    as [|first parts]; [eexists; split; [done|by intros]|].
  destruct (negb (String.eqb first EmptyString));
    [eexists; split; [done|by intros]|].
  rewrite Hr.
  destruct (getEntry_walk_returns parts w l rn Hcl Hl Hd)
    as [(r & -> & Hres)|(c & cn & -> & Hc & Hcd)]; cbn.
  - by exists r.
  - rewrite (deref_heap _ _ _ Hc). cbn.
    destruct (lookup_entry cn lastEntry) as [x|] eqn:Hx.
    + eexists. split; [done|]. intros _. split; [by exists c, cn|].
      intros e [= <-]. by apply (Hcl c cn lastEntry x).
    + eexists. split; [done|]. intros _. split; [by exists c, cn|done].
Qed.

Lemma intact_step w lc cn m key nd l :
  intact w -> heap w !! lc = Some cn -> entries cn = Some m ->
  heap w !! l = None -> (forall k, lookup_entry nd k = None) ->
  intact (with_heap w (<[lc := set_entries cn (Some (<[key := l]> m))]>
                         (<[l := nd]> (heap w)))).
Proof.
  intros [(r & rn & Hr & Hl & Hd) Hcl] Hlc Hm Hf Hnd.
  split; [|by eapply closed_heap_step].
  cbn. destruct (decide (lc = r)) as [->|Hne].
  - eexists r, _. split; [done|]. rewrite lookup_insert_eq. split; [done|].
    unfold isDir. done.
  - exists r, rn. split; [done|]. rewrite lookup_insert_ne by done.
    rewrite lookup_insert_ne; [done|]. intros <-. congruence.
Qed.

(** On an intact store [Mkdir] returns and leaves an intact store. *)
Lemma Mkdir_keeps_intact w path pm :
  intact w -> exists w' e, Mkdir w path pm = Ret (w', e) /\ intact w'.
Proof.
  intros Hi. destruct (getEntry_returns w path Hi) as ([[[parent entry] missing] err] & Hg & Hres).
  unfold Mkdir. rewrite Hg. cbn.
  destruct err; [by eexists _, _|].
  destruct (Hres eq_refl) as [(pl & pn & -> & Hpl & Hpd) _].
  destruct entry; [by eexists _, _|].
  destruct (String.eqb missing EmptyString); [by eexists _, _|].
  destruct (more_than_one_missing missing); [by eexists _, _|].
  rewrite (deref_heap _ _ _ Hpl). cbn.
  unfold isDir in Hpd. destruct (entries pn) as [m|] eqn:Hm; [|done].
  destruct (alloc_assign w pl pn m missing (new_dir w missing pm) Hpl Hm)
    as (l & -> & Hf & Hne & ->). cbn.
  eexists _, _. split; [done|].
  eapply intact_step; try done; apply new_dir_childless.
Qed.

Lemma modify_keeps_intact w l n g :
  intact w -> heap w !! l = Some n ->
  isDir (g n) = isDir n ->
  (forall k v, lookup_entry (g n) k = Some v -> lookup_entry n k = Some v) ->
  intact (with_heap w (<[l := g n]> (heap w))).
Proof.
  intros [(r & rn & Hr & Hl & Hd) Hcl] Hn Hgd Hgk. split.
  - cbn. destruct (decide (l = r)) as [->|Hne].
    + exists r, (g n). rewrite lookup_insert_eq. repeat split; [done|].
      rewrite Hgd. congruence.
    + exists r, rn. by rewrite lookup_insert_ne.
  - intros a x k v Ha Hk. cbn in *.
    assert (Hv : is_Some (heap w !! v)).
    { destruct (decide (l = a)) as [<-|Hne].
      - rewrite lookup_insert_eq in Ha. inversion Ha; subst x.
        apply (Hcl l n k v Hn). by apply Hgk.
      - rewrite lookup_insert_ne in Ha by done. by apply (Hcl a x k v). }
    destruct (decide (l = v)) as [<-|]; [by rewrite lookup_insert_eq|].
    by rewrite lookup_insert_ne.
Qed.

Lemma intact_ext w w' :
  intact w -> heap w' = heap w -> root w' = root w -> intact w'.
Proof.
  intros [(l & rn & H1 & H2 & H3) Hcl] Hh Hr. split.
  - exists l, rn. by rewrite Hh, Hr.
  - intros a n k v. rewrite Hh. apply Hcl.
Qed.

Lemma crws_Seek_end_cursor w l n :
  heap w !! l = Some n ->
  exists p k e,
    crws_Seek w (Some (mkCrws (Some l) 0)) 0 SeekEnd
    = Ret (Some (mkCrws (Some l) p), k, e)
    /\ 0 <= p /\ (len (content n) <= max_int -> p = len (content n)).
Proof.
  intros Hl. unfold crws_Seek, getContent. cbn.
  rewrite (deref_heap _ _ _ Hl). cbn.
  destruct (wrap_int (len (content n) + 0) <? 0) eqn:E.
  - exists 0, 0, (Some (Bare ErrInvalid)). repeat split; [lia|].
    intros Hb. rewrite wrap_int_id in E by (unfold len, max_int in *; lia).
    unfold len in *. lia.
  - eexists _, _, _. repeat split; [lia|].
    intros Hb. rewrite wrap_int_id by (unfold len, max_int in *; lia). lia.
Qed.

(** X13. On an intact store [OpenFile] returns, whatever the path and flags;
    the store it leaves is intact; a call that fails leaves the store as it
    was, and a call that succeeds gives an open handle with the flags asked
    for, whose node is in the heap, with a content engine on that node
    exactly when the node is a file. *)
Theorem X13_OpenFile_on_an_intact_store w path flg pm :
  intact w ->
  exists w' o e,
    OpenFile w path flg pm = Ret (w', o, e) /\ intact w'
    /\ match o with
       | Some f => e = None /\ sound_handle w' f /\ closed f = false /\ flag f = flg
       | None => e <> None /\ w' = w
       end.
Proof.
  intros Hi.
  destruct (getEntry_returns w path Hi) as ([[[parent entry] missing] err] & Hg & Hres).
  unfold OpenFile. rewrite Hg. cbn.
  destruct err; [by eexists _, _, _|].
  destruct (Hres eq_refl) as [(pl & pn & -> & Hpl & Hpd) He].
  destruct (more_than_one_missing missing); [by eexists _, _, _|].
  destruct entry as [e|].
  - destruct (He e eq_refl) as [en Hen]. rewrite (deref_heap _ _ _ Hen). cbn.
    destruct (isDir en) eqn:Hd.
    { eexists _, _, _. split; [done|]. split; [by apply (intact_ext w)|].
      repeat split. exists e, en. by rewrite Hd. }
    destruct (canWrite flg); cbn.
    2:{ eexists _, _, _. split; [done|]. split; [by apply (intact_ext w)|].
        repeat split. exists e, en. by rewrite Hd. }
    destruct (isCreate flg && isCreateMustNotExist flg); [by eexists _, _, _|].
    destruct (isTruncating flg).
    { unfold setContent, modify. rewrite (deref_heap _ _ _ Hen). cbn.
      eexists _, _, _. split; [done|]. split.
      - eapply intact_ext; [by apply (modify_keeps_intact w e en (fun n => set_content n []))|done..].
      - repeat split. exists e, (set_content en []). cbn.
        rewrite lookup_insert_eq. repeat split; [|done]. by rewrite <- Hd. }
    destruct (isAppend flg).
    { destruct (crws_Seek_end_cursor w e en Hen) as (p & k & x & -> & Hp & _). cbn.
      eexists _, _, _. split; [done|]. split; [by apply (intact_ext w)|].
      repeat split. exists e, en. by rewrite Hd. }
    eexists _, _, _. split; [done|]. split; [by apply (intact_ext w)|].
    repeat split. exists e, en. by rewrite Hd.
  - destruct (isReadOnly flg); [by eexists _, _, _|].
    destruct (isCreate flg); [|by eexists _, _, _].
    rewrite (deref_heap _ _ _ Hpl). cbn.
    unfold isDir in Hpd. destruct (entries pn) as [m|] eqn:Hm; [|done].
    destruct (alloc_assign w pl pn m missing (new_file w missing pm) Hpl Hm)
      as (l & -> & Hf & Hne & ->). cbn.
    eexists _, _, _. split; [done|]. split.
    + eapply intact_ext;
        [eapply (intact_step w pl pn m missing (new_file w missing pm) l);
         try done; apply new_file_childless|done..].
    + repeat split. exists l, (new_file w missing pm). cbn.
      rewrite lookup_insert_ne by done. rewrite lookup_insert_eq. done.
Qed.

Lemma detach_keeps_intact w pl pn e en :
  intact w -> heap w !! pl = Some pn -> heap w !! e = Some en ->
  exists w', detach w (Some pl) (Some e) = Ret w' /\ intact w'.
Proof.
  intros Hi Hpl He. unfold detach, delete_entry, modify.
  rewrite (deref_heap _ _ _ Hpl). cbn. rewrite (deref_heap _ _ _ He). cbn.
  set (w1 := with_heap w (<[e := set_unlinked en true]> (heap w))).
  assert (Hi1 : intact w1) by (by apply (modify_keeps_intact w e en (fun n => set_unlinked n true))).
  assert (He1 : heap w1 !! e = Some (set_unlinked en true))
    by (cbn; apply lookup_insert_eq).
  rewrite (deref_heap _ _ _ He1). cbn.
  assert (Hp1 : exists pn1, heap w1 !! pl = Some pn1).
  { cbn. destruct (decide (e = pl)) as [->|]; [rewrite lookup_insert_eq; eauto|].
    rewrite lookup_insert_ne by done. eauto. }
  destruct Hp1 as [pn1 Hp1]. rewrite (deref_heap _ _ _ Hp1). cbn.
  eexists. split; [done|].
  apply (modify_keeps_intact w1 pl pn1
           (fun n => set_entries n (delete (name en) <$> entries n))); try done.
  - unfold isDir. cbn. by destruct (entries pn1).
  - intros k v. unfold lookup_entry. cbn. destruct (entries pn1) as [m|]; [|done].
    cbn. intros H. apply lookup_delete_Some in H. tauto.
Qed.

(** X14. On an intact store [Remove] returns and leaves an intact store,
    except when the path resolves to no target with nothing missing, as the
    root path does: then it panics. *)
Theorem X14_Remove_on_an_intact_store w path :
  intact w ->
  (exists p, getEntry w path = Ret (p, None, EmptyString, None)
             /\ Remove w path = Panic NilDereference)
  \/ (exists w' e, Remove w path = Ret (w', e) /\ intact w').
Proof.
  intros Hi.
  destruct (getEntry_returns w path Hi) as ([[[parent entry] missing] err] & Hg & Hres).
  unfold Remove. rewrite Hg. cbn.
  destruct err; [right; by eexists _, _|].
  destruct (Hres eq_refl) as [(pl & pn & -> & Hpl & Hpd) He].
  destruct (String.eqb_spec missing EmptyString) as [->|Hne]; cbn;
    [|right; by eexists _, _].
  destruct entry as [e|]; [|left; by eexists].
  right. destruct (He e eq_refl) as [en Hen]. rewrite (deref_heap _ _ _ Hen). cbn.
  destruct (detach_keeps_intact w pl pn e en Hi Hpl Hen) as (w' & Hd & Hi').
  destruct (isDir en); [destruct (len_entries en =? 0)|];
    rewrite ?Hd; cbn; by eexists _, _.
Qed.

(** On an intact store [Stat] returns. *)
Lemma Stat_returns w path :
  intact w -> exists fi e, Stat w path = Ret (fi, e).
Proof.
  intros Hi.
  destruct (getEntry_returns w path Hi) as ([[[parent entry] missing] err] & Hg & _).
  unfold Stat. rewrite Hg. cbn. destruct err; [by eexists _, _|].
  destruct (negb (String.eqb missing EmptyString)); by eexists _, _.
Qed.

Lemma initial_store_intact cwd now : intact (initial_store cwd now).
Proof.
  split.
  - exists 0%nat,
      (mkNode EmptyString ModePerm now [] (Some {[ tempDir := 1%nat ]}) false).
    split; [done|]. split; [|done].
    cbn. rewrite lookup_insert_ne by done. apply lookup_singleton_eq.
  - intros l n k v Hl Hk. cbn in *.
    destruct (decide (l = 1%nat)) as [->|H1].
    + rewrite lookup_insert_eq in Hl. inversion Hl; subst n.
      unfold lookup_entry in Hk. cbn in Hk. by rewrite lookup_empty in Hk.
    + rewrite lookup_insert_ne in Hl by done.
      apply lookup_singleton_Some in Hl as [<- <-].
      unfold lookup_entry in Hk. cbn in Hk.
      apply lookup_singleton_Some in Hk as [_ <-].
      by rewrite lookup_insert_eq.
Qed.

Lemma getEntry_tmp w l rn t :
  root w = Some l -> heap w !! l = Some rn -> lookup_entry rn "tmp" = Some t ->
  getEntry w "/tmp" = Ret (Some l, Some t, EmptyString, None).
Proof.
  intros Hr Hl Ht. unfold getEntry. cbn. rewrite Hr.
  rewrite (deref_heap _ _ _ Hl). cbn. by rewrite Ht.
Qed.

(** X15. [New] returns, for every working directory and clock, an intact store
    in which [/tmp] resolves to a live directory. *)
Theorem X15_New_store cwd now :
  exists w t tn,
    New cwd now = Ret w /\ intact w
    /\ getEntry w "/tmp" = Ret (root w, Some t, EmptyString, None)
    /\ heap w !! t = Some tn /\ isDir tn = true /\ unlinked tn = false.
Proof.
  destruct (MkdirAll_keeps_intact (initial_store cwd now) cwd ModePerm
              (initial_store_intact cwd now)) as (w & e & Hm & Hi).
  assert (G : grows (initial_store cwd now) w).
  { unfold MkdirAll in Hm. destruct (negb (ValidPath cwd)); [inversion Hm; apply grows_refl|].
    destruct (strings_Split cwd Separator) as [|first rest]; [inversion Hm; apply grows_refl|].
    destruct (negb (String.eqb first EmptyString)); [inversion Hm; apply grows_refl|].
    destruct rest; [inversion Hm; apply grows_refl|].
    by eapply MkdirAll_walk_grows. }
  destruct G as [[Hr _] G].
  destruct (G 0%nat _ ltac:(cbn; rewrite lookup_insert_ne by done; apply lookup_singleton_eq))
    as (rn & Hrn & Grn).
  destruct (G 1%nat _ ltac:(cbn; apply lookup_insert_eq)) as (tn & Htn & Gtn).
  exists w, 1%nat, tn. split.
  - unfold New. fold (initial_store cwd now). rewrite Hm. done.
  - split; [done|]. split.
    + rewrite Hr. apply (getEntry_tmp w 0%nat rn 1%nat); [by rewrite Hr|done|].
      destruct Grn as (_&_&_&_&_&_&Hk). apply Hk. unfold lookup_entry. cbn.
      apply lookup_insert_eq.
    + split; [done|]. destruct Gtn as (_&_&_&_&Hu&Hd&_). by rewrite Hu, Hd.
Qed.

(** ** Handles: closing, seeking, offsets *)

(** X6. The first [Close] of a handle succeeds; the second fails with Closed.
    On the closed handle of a live node, [Seek], the three listings, and the
    reads and writes its flags allow all fail with Closed and change
    nothing, while [Stat] still succeeds. *)
Theorem X6_Close_once w f n :
  deref w (node f) = Ret n -> closed f = false ->
  let f1 := with_closed f true in
  let gone := Some (Errorf "file closed" (name n) ErrClosed) in
  File_Close w f = Ret (f1, None)
  /\ File_Close w f1 = Ret (f1, gone)
  /\ (unlinked n = false ->
      (forall off wh, File_Seek w f1 off wh = Ret (f1, 0, gone))
      /\ (forall k, File_ReadDir w f1 k = Ret (f1, [], gone))
      /\ (forall k, File_Readdir w f1 k = Ret (f1, [], gone))
      /\ (forall k, File_Readdirnames w f1 k = Ret (f1, [], gone))
      /\ (canRead (flag f) = true ->
          (forall p, File_Read w f1 p = Ret (f1, p, 0, gone))
          /\ (forall p off, File_ReadAt w f1 p off = Ret (f1, p, 0, gone)))
      /\ (canWrite (flag f) = true ->
          (forall p, File_Write w f1 p = Ret (w, f1, 0, gone))
          /\ (forall p off, isAppend (flag f) = false ->
                File_WriteAt w f1 p off = Ret (w, f1, 0, gone)))
      /\ File_Stat w f1 = Ret (mkFileInfo (node f), None)).
Proof.
  intros Hn Hc f1 gone.
  split; [unfold File_Close; by rewrite Hc|].
  split; [unfold File_Close, File_Name; cbn; by rewrite Hn|].
  intros Hu. repeat split; intros.
  - unfold File_Seek. cbn. rewrite Hn. cbn. by rewrite Hu.
  - unfold File_ReadDir, listing_guard. cbn. rewrite Hn. cbn. by rewrite Hu.
  - unfold File_Readdir, listing_guard. cbn. rewrite Hn. cbn. by rewrite Hu.
  - unfold File_Readdirnames, listing_guard. cbn. rewrite Hn. cbn. by rewrite Hu.
  - unfold File_Read. cbn. rewrite Hn. cbn. by rewrite Hu, H.
  - unfold File_ReadAt. cbn. rewrite Hn. cbn. by rewrite Hu, H.
  - unfold File_Write. cbn. rewrite Hn. cbn. by rewrite Hu, H.
  - unfold File_WriteAt. cbn. rewrite Hn. cbn. by rewrite Hu, H, H0.
  - unfold File_Stat. cbn. rewrite Hn. cbn. by rewrite Hu.
Qed.

Lemma File_Seek_spec w f l n c off :
  node f = Some l -> heap w !! l = Some n -> unlinked n = false ->
  closed f = false -> crws f = Some c -> owner c = Some l ->
  let moved p := Ret (with_crws f (Some (mkCrws (Some l) p)), p, None) in
  let refused := Ret (f, 0, Some (Bare ErrInvalid)) in
  File_Seek w f off SeekStart = (if off <? 0 then refused else moved off)
  /\ (- 2 ^ 63 <= pos c + off <= max_int ->
      File_Seek w f off SeekCurrent
      = (if pos c + off <? 0 then refused else moved (pos c + off)))
  /\ (- 2 ^ 63 <= len (content n) + off <= max_int ->
      File_Seek w f off SeekEnd
      = (if len (content n) + off <? 0 then refused
         else moved (len (content n) + off)))
  /\ (forall wh, wh <> SeekStart -> wh <> SeekCurrent -> wh <> SeekEnd ->
      File_Seek w f off wh = moved 0).
Proof.
  intros Hn Hl Hu Hc Hcr Ho moved refused.
  assert (E : forall wh, File_Seek w f off wh =
            '(c', k, e) ← crws_Seek w (Some c) off wh; Ret (with_crws f c', k, e)).
  { intros wh. unfold File_Seek. rewrite Hn, (deref_heap _ _ _ Hl). cbn.
    by rewrite Hu, Hc, Hcr. }
  assert (Hf : with_crws f (Some c) = f) by (destruct f; cbn in *; by subst).
  rewrite !E. unfold crws_Seek, getContent. rewrite Ho, (deref_heap _ _ _ Hl). cbn.
  split; [|split; [|split]].
  - destruct (off <? 0); cbn; by rewrite ?Hf.
  - intros Hb. rewrite (wrap_int_id _ Hb).
    destruct (pos c + off <? 0); cbn; by rewrite ?Hf.
  - intros Hb. rewrite (wrap_int_id _ Hb).
    destruct (len (content n) + off <? 0); cbn; by rewrite ?Hf.
  - intros wh H0 H1 H2. rewrite E. unfold crws_Seek, getContent.
    rewrite Ho, (deref_heap _ _ _ Hl). cbn.
    destruct (Z.eqb_spec wh SeekStart); [done|].
    destruct (Z.eqb_spec wh SeekCurrent); [done|].
    destruct (Z.eqb_spec wh SeekEnd); [done|]. done.
Qed.

Lemma negative_offsets_refused w f n off :
  deref w (node f) = Ret n -> unlinked n = false -> closed f = false -> off < 0 ->
  (canRead (flag f) = true ->
   forall p, File_ReadAt w f p off = Ret (f, p, 0, Some (Bare ErrInvalid)))
  /\ (canWrite (flag f) = true -> isAppend (flag f) = false ->
      forall p, File_WriteAt w f p off = Ret (w, f, 0, Some (Bare ErrInvalid))).
Proof.
  intros Hn Hu Hc Hoff.
  assert (Hlt : (off <? 0) = true) by lia.
  assert (Hf : with_crws f (crws f) = f) by (by destruct f).
  split.
  - intros Hr p. unfold File_ReadAt. rewrite Hn. cbn. rewrite Hu, Hr, Hc. cbn.
    unfold crws_ReadAt. rewrite Hlt. cbn. by rewrite Hf.
  - intros Hw Ha p. unfold File_WriteAt. rewrite Hn. cbn. rewrite Hu, Hw, Ha, Hc. cbn.
    unfold crws_WriteAt. rewrite Hlt. cbn. by rewrite Hf.
Qed.

(** X2. [Seek] accepts a position past the end of the content; a [Read] from
    there through a buffer longer than the cursor does not return: it panics
    on the slice of the content. *)
Theorem X2_Read_beyond_the_end_panics w f l n c off p :
  node f = Some l -> heap w !! l = Some n -> unlinked n = false ->
  canRead (flag f) = true -> closed f = false ->
  crws f = Some c -> owner c = Some l ->
  len (content n) < off -> off < len p ->
  exists f',
    File_Seek w f off SeekStart = Ret (f', off, None)
    /\ File_Read w f' p = Panic SliceBoundsOutOfRange.
Proof.
  intros Hn Hl Hu Hr Hc Hcr Ho Hoff Hp.
  destruct (File_Seek_spec w f l n c off Hn Hl Hu Hc Hcr Ho) as [E _].
  assert (Hlt : (off <? 0) = false) by (unfold len in *; lia).
  rewrite Hlt in E. eexists. split; [exact E|].
  by apply (File_Read_spec w _ p l n (mkCrws (Some l) off)).
Qed.

(** ** Writing and reading back *)

Lemma written_read_back (old buf : list byte) (a : nat) :
  take (length buf) (drop a (written old (Z.of_nat a) buf)) = buf.
Proof.
  unfold written. rewrite Nat2Z.id.
  assert (Hl : length (take a (old ++ replicate (a - length old) x00)) = a).
  { rewrite length_take, length_app, length_replicate. lia. }
  rewrite drop_app_length'; [|done]. by rewrite take_app_length.
Qed.

Lemma written_read_back_Z (old buf : list byte) (z : Z) :
  0 <= z -> take (length buf) (drop (Z.to_nat z) (written old z buf)) = buf.
Proof.
  intros H. rewrite <- (Z2Nat.id z) at 2 by done. apply written_read_back.
Qed.

Lemma written_nothing (old : list byte) (a : nat) :
  written old (Z.of_nat a) [] = old ++ replicate (a - length old) x00.
Proof.
  unfold written. rewrite Nat2Z.id. cbn. rewrite Nat.add_0_r.
  destruct (decide (length old <= a)%nat).
  - rewrite take_ge by (rewrite length_app, length_replicate; lia).
    rewrite drop_ge by lia. by rewrite app_nil_r.
  - replace (a - length old)%nat with 0%nat by lia. cbn. rewrite app_nil_r.
    by rewrite take_drop.
Qed.

(** X3. What one handle writes at its cursor, any readable handle on the same
    node reads back with [ReadAt] from that offset through a buffer of the
    same length, provided the offset is less than that length; the reading
    handle's cursor is left at the end of the bytes read. *)
Theorem X3_Write_then_ReadAt_reads_back w f g buf p l n c d :
  node f = Some l -> heap w !! l = Some n -> unlinked n = false ->
  canWrite (flag f) = true -> closed f = false ->
  crws f = Some c -> owner c = Some l ->
  node g = Some l -> canRead (flag g) = true -> closed g = false ->
  crws g = Some d -> owner d = Some l ->
  0 <= pos c -> pos c + len buf <= max_int ->
  length p = length buf -> pos c < len buf ->
  exists w' f',
    File_Write w f buf = Ret (w', f', len buf, None)
    /\ File_ReadAt w' g p (pos c)
       = Ret (with_crws g (Some (mkCrws (Some l) (pos c + len buf))),
              buf, len buf, None).
Proof.
  intros Hn Hl Hu Hw Hc Hcr Ho Hgn Hgr Hgc Hgcr Hgo Hpos Hfit Hlen Hlt.
  rewrite (File_Write_spec w f buf l n c) by done.
  eexists _, _. split; [done|].
  set (w' := with_heap w _).
  set (n' := set_content n (written (content n) (pos c) buf)).
  assert (Hl' : heap w' !! l = Some n') by (cbn; apply lookup_insert_eq).
  assert (Hneg : (pos c <? 0) = false) by lia.
  unfold File_ReadAt. rewrite Hgn, (deref_heap _ _ _ Hl'). cbn.
  rewrite Hu, Hgr, Hgc, Hgcr. cbn.
  unfold crws_ReadAt. rewrite Hneg, Hgo, (deref_heap _ _ _ Hl'). cbn.
  unfold crws_read, getContent. cbn. rewrite (deref_heap _ _ _ Hl'). cbn.
  destruct (Z.leb_spec (len p) (pos c)) as [Hle|_].
  { unfold len in *. lia. }
  assert (Ha : pos c = Z.of_nat (Z.to_nat (pos c))) by lia.
  set (a := Z.to_nat (pos c)) in *.
  assert (Hlw : length (written (content n) (pos c) buf)
                = (length (content n) `max` (a + length buf))%nat).
  { rewrite Ha. apply written_length. }
  unfold slice_from, len. rewrite Hneg.
  destruct (Z.ltb_spec (Z.of_nat (length (written (content n) (pos c) buf))) (pos c));
    [lia|]. cbn.
  rewrite go_copy_long by (rewrite length_drop; lia). cbn.
  rewrite Hlen, (written_read_back_Z _ _ _ Hpos).
  unfold len. by rewrite Hlen.
Qed.

(** X4. A [Write] of no bytes reports 0 and leaves the cursor, but with the
    cursor past the end it still grows the content with zeros up to the
    cursor; with the cursor within the content it changes nothing. *)
Theorem X4_Write_of_nothing_can_grow w f l n c :
  node f = Some l -> heap w !! l = Some n -> unlinked n = false ->
  canWrite (flag f) = true -> closed f = false ->
  crws f = Some c -> owner c = Some l ->
  0 <= pos c <= max_int ->
  File_Write w f [] =
    Ret (with_heap w
           (<[l := set_content n
                     (content n ++ replicate (Z.to_nat (pos c) - length (content n)) x00)]>
              (heap w)),
         f, 0, None).
Proof.
  intros Hn Hl Hu Hw Hc Hcr Ho Hpos.
  rewrite (File_Write_spec w f [] l n c) by (try done; unfold len; cbn; lia).
  assert (Ha : pos c = Z.of_nat (Z.to_nat (pos c))) by lia.
  rewrite Ha at 1. rewrite written_nothing.
  unfold len. cbn. rewrite Z.add_0_r.
  do 3 f_equal. destruct f, c; cbn in *. by subst.
Qed.

(** X5. After a [Write] on a file, [Stat] on the handle succeeds and the size
    it reports is the larger of the old size and the end of the write. *)
Theorem X5_Size_after_Write w f buf l n c :
  node f = Some l -> heap w !! l = Some n -> unlinked n = false ->
  isDir n = false ->
  canWrite (flag f) = true -> closed f = false ->
  crws f = Some c -> owner c = Some l ->
  0 <= pos c -> pos c + len buf <= max_int ->
  exists w' f' fi,
    File_Write w f buf = Ret (w', f', len buf, None)
    /\ File_Stat w' f' = Ret (fi, None)
    /\ FileInfo_Size w' fi = Ret (Z.max (len (content n)) (pos c + len buf)).
Proof.
  intros Hn Hl Hu Hd Hw Hc Hcr Ho Hpos Hfit.
  rewrite (File_Write_spec w f buf l n c) by done.
  eexists _, _, (mkFileInfo (Some l)). split; [done|].
  set (w' := with_heap w _).
  assert (Hl' : heap w' !! l
                = Some (set_content n (written (content n) (pos c) buf)))
    by (cbn; apply lookup_insert_eq).
  split.
  - unfold File_Stat. cbn [node with_crws]. rewrite Hn, (deref_heap _ _ _ Hl').
    cbn. by rewrite Hu.
  - unfold FileInfo_Size. cbn [FileInfo_node]. rewrite (deref_heap _ _ _ Hl').
    cbn. rewrite Hu. cbn. unfold isDir in *. cbn.
    destruct (entries n); [done|]. cbn.
    f_equal. unfold len.
    replace (pos c) with (Z.of_nat (Z.to_nat (pos c))) by lia.
    rewrite written_length. lia.
Qed.

(** ** Resolution under growth *)

Lemma getEntry_walk_stable parts :
  forall w w' cur c,
    grows w w' ->
    getEntry_walk w cur parts = Ret (inr c) ->
    getEntry_walk w' cur parts = Ret (inr c).
Proof.
  induction parts as [|part rest IH]; intros w w' cur c G H; cbn in H |- *; [done|].
  destruct (deref w cur) as [cn| |] eqn:Hc; cbn in H; try done.
  destruct (lookup_entry cn part) as [x|] eqn:Hx; [|done].
  destruct (deref w (Some x)) as [en| |] eqn:Hen; cbn in H; try done.
  destruct (isDir en) eqn:Hd; cbn in H; [|done].
  destruct (grows_deref _ _ _ _ G Hc) as (cn' & -> & Gc). cbn.
  destruct Gc as (_&_&_&_&_&_&Hk). rewrite (Hk _ _ Hx).
  destruct (grows_deref _ _ _ _ G Hen) as (en' & -> & Ge). cbn.
  destruct Ge as (_&_&_&_&_&Hd'&_). rewrite Hd', Hd. cbn.
  by eapply IH.
Qed.

(** A path that resolves to a node goes on resolving to that node when the
    store grows. *)
Lemma getEntry_stable w w' path parent e :
  grows w w' ->
  getEntry w path = Ret (parent, Some e, EmptyString, None) ->
  getEntry w' path = Ret (parent, Some e, EmptyString, None).
Proof.
  intros G H. pose proof G as [[Hr Hwd] _]. unfold getEntry in *.
  unfold getAbsolutePath in *. rewrite Hwd, Hr.
  destruct (negb (ValidPath path)); [done|].
  destruct (filepath_Split _) as [parentDir lastEntry].
  destruct (String.eqb parentDir "/" && String.eqb lastEntry EmptyString); [done|].
  destruct (if String.eqb parentDir "/" then [EmptyString]
            else strings_Split (filepath_Clean parentDir) Separator)
    as [|first parts]; [done|].
  destruct (negb (String.eqb first EmptyString)); [done|].
  destruct (getEntry_walk w (root w) parts) as [[early|current]| |] eqn:Hw;
    cbn in H; try done.
  - destruct early as [[[p' e'] m'] err']. inversion H; subst.
    by apply getEntry_walk_early in Hw.
  - rewrite (getEntry_walk_stable _ _ _ _ _ G Hw). cbn.
    destruct (deref w current) as [cn| |] eqn:Hc; cbn in H; try done.
    destruct (lookup_entry cn lastEntry) as [x|] eqn:Hx; [|done].
    inversion H; subst.
    destruct (grows_deref _ _ _ _ G Hc) as (cn' & -> & Gc). cbn.
    destruct Gc as (_&_&_&_&_&_&Hk). by rewrite (Hk _ _ Hx).
Qed.

Lemma MkdirAll_grows w path pm w' e :
  MkdirAll w path pm = Ret (w', e) -> grows w w'.
Proof.
  unfold MkdirAll. intros H.
  destruct (negb (ValidPath path)); [inversion H; apply grows_refl|].
  destruct (strings_Split path Separator) as [|first rest];
    [inversion H; apply grows_refl|].
  destruct (negb (String.eqb first EmptyString)); [inversion H; apply grows_refl|].
  destruct rest; [inversion H; apply grows_refl|].
  by eapply MkdirAll_walk_grows.
Qed.

(** X11. [MkdirAll], whether it ends in an error or not, only adds: every node
    stays, with its name, permission, time, content, flags and children,
    and every path that resolved to a node resolves to it still. *)
Theorem X11_MkdirAll_only_adds w path pm w' e :
  MkdirAll w path pm = Ret (w', e) ->
  grows w w'
  /\ forall q parent x,
       getEntry w q = Ret (parent, Some x, EmptyString, None) ->
       getEntry w' q = Ret (parent, Some x, EmptyString, None).
Proof.
  intros H. pose proof (MkdirAll_grows _ _ _ _ _ H) as G.
  split; [done|]. intros q parent x. by apply getEntry_stable.
Qed.

(** ** Making a node and finding it again *)

Lemma getEntry_by_segments w path parts last :
  ValidPath path = true -> path_segments w path = Some (parts, last) ->
  getEntry w path =
    r ← getEntry_walk w (root w) parts;
    match r with
    | inl early => Ret early
    | inr current =>
        cn ← deref w current;
        match lookup_entry cn last with
        | Some e => Ret (current, Some e, EmptyString, None)
        | None => Ret (current, None, last, None)
        end
    end.
Proof.
  intros Hv Hs. unfold getEntry, path_segments in *. rewrite Hv. cbn [negb].
  destruct (filepath_Split (getAbsolutePath w path)) as [parentDir lastEntry].
  destruct (String.eqb parentDir "/" && String.eqb lastEntry EmptyString); [done|].
  destruct (if String.eqb parentDir "/" then [EmptyString]
            else strings_Split (filepath_Clean parentDir) Separator)
    as [|first ps]; [done|].
  destruct (String.eqb first EmptyString); [|done]. cbn [negb].
  by inversion Hs; subst.
Qed.









(** ** Opening a file that is there *)

(** X18. Opened for writing with Append (and neither Truncate nor an exclusive
    create), a file is written at its end: after the [Write] the content is
    the old content followed by the bytes written. *)
Theorem X18_Append_then_Write w path flg pm parent e en buf :
  getEntry w path = Ret (parent, Some e, EmptyString, None) ->
  heap w !! e = Some en -> isDir en = false -> unlinked en = false ->
  canWrite flg = true -> isCreate flg && isCreateMustNotExist flg = false ->
  isTruncating flg = false -> isAppend flg = true ->
  len (content en) + len buf <= max_int ->
  exists w1 f w2 f2,
    OpenFile w path flg pm = Ret (w1, Some f, None)
    /\ File_Write w1 f buf = Ret (w2, f2, len buf, None)
    /\ getContent w2 (Some e) = Ret (content en ++ buf).
Proof.
  intros Hg He Hd Hu Hw Hx Ht Ha Hfit.
  destruct (crws_Seek_end_cursor w e en He) as (p & k & x & Hs & Hp & Hpe).
  rewrite Hpe in * by (unfold len in *; lia).
  eexists _, _. 
  assert (Ho : OpenFile w path flg pm
               = Ret (fst (getNextFileDescriptor w),
                      Some (mkFile (Some e) flg (nextFD w)
                              (Some (mkCrws (Some e) (len (content en))))
                              false 0 0 0), None)).
  { unfold OpenFile. rewrite Hg. cbn. rewrite (deref_heap _ _ _ He). cbn.
    rewrite Hd, Hw, Hx, Ht, Ha, Hs. done. }
  rewrite Ho.
  assert (Hp0 : 0 <= len (content en)) by (unfold len; lia).
  rewrite (File_Write_spec (fst (getNextFileDescriptor w))
             (mkFile (Some e) flg (nextFD w)
                (Some (mkCrws (Some e) (len (content en)))) false 0 0 0)
             buf e en (mkCrws (Some e) (len (content en)))
             eq_refl He Hu Hw eq_refl eq_refl eq_refl Hp0 Hfit).
  eexists _, _. split; [done|]. split; [done|].
  unfold getContent. cbn [pos]. 
  rewrite (deref_heap _ e (set_content en (written (content en) (len (content en)) buf)))
    by (cbn; apply lookup_insert_eq).
  cbn. f_equal. unfold len, written. rewrite Nat2Z.id, Nat.sub_diag. cbn.
  rewrite app_nil_r, take_ge by lia. rewrite drop_ge by lia. by rewrite app_nil_r.
Qed.

(** X19. Opened for writing with Truncate (and no exclusive create), a file is
    emptied, whatever it held; the handle's cursor is at 0 and [Stat] on it
    reports size 0. *)
Theorem X19_Truncate_empties w path flg pm parent e en :
  getEntry w path = Ret (parent, Some e, EmptyString, None) ->
  heap w !! e = Some en -> isDir en = false -> unlinked en = false ->
  canWrite flg = true -> isCreate flg && isCreateMustNotExist flg = false ->
  isTruncating flg = true ->
  exists w1 f fi,
    OpenFile w path flg pm = Ret (w1, Some f, None)
    /\ crws f = Some (mkCrws (Some e) 0)
    /\ getContent w1 (Some e) = Ret []
    /\ File_Stat w1 f = Ret (fi, None)
    /\ FileInfo_Size w1 fi = Ret 0.
Proof.
  intros Hg He Hd Hu Hw Hx Ht.
  set (w0 := with_heap w (<[e := set_content en []]> (heap w))).
  assert (Ho : OpenFile w path flg pm
               = Ret (fst (getNextFileDescriptor w0),
                      Some (mkFile (Some e) flg (nextFD w)
                              (Some (mkCrws (Some e) 0)) false 0 0 0), None)).
  { unfold OpenFile. rewrite Hg. cbn. rewrite (deref_heap _ _ _ He). cbn.
    rewrite Hd, Hw, Hx, Ht. unfold setContent, modify.
    rewrite (deref_heap _ _ _ He). done. }
  rewrite Ho. eexists _, _, (mkFileInfo (Some e)). split; [done|]. split; [done|].
  assert (Hl : heap (fst (getNextFileDescriptor w0)) !! e = Some (set_content en []))
    by (cbn; apply lookup_insert_eq).
  unfold getContent, File_Stat, FileInfo_Size. cbn [node FileInfo_node].
  rewrite !(deref_heap _ _ _ Hl). cbn. rewrite Hu. cbn.
  unfold isDir in *. cbn. by destruct (entries en).
Qed.

(** ** Flags *)

Lemma land_access_bit flg b :
  Z.land flg 3 = 0 -> Z.land 3 b = b -> b <> 0 -> isSet flg b = false.
Proof.
  intros H Hb Hne. unfold isSet.
  rewrite <- Hb at 1. rewrite Z.land_assoc, H, Z.land_0_l.
  destruct (Z.eqb_spec 0 b); [congruence|done].
Qed.

(** A flag word with neither access bit set can never write, and can read
    only if it is exactly [O_RDONLY]: any other bit, such as Create, takes
    the read permission away too. *)
Lemma flags_without_access_bits flg :
  Z.land flg 3 = 0 ->
  canWrite flg = false /\ (canRead flg = true <-> flg = O_RDONLY).
Proof.
  intros H.
  assert (H1 : isSet flg O_WRONLY = false) by (by apply land_access_bit).
  assert (H2 : isSet flg O_RDWR = false) by (by apply land_access_bit).
  unfold canWrite, canRead, isWriteOnly, isReadWrite, isReadOnly.
  rewrite H1, H2. split; [done|]. rewrite orb_false_r. apply Z.eqb_eq.
Qed.

Lemma handle_without_access w f n :
  deref w (node f) = Ret n -> unlinked n = false ->
  Z.land (flag f) 3 = 0 -> flag f <> O_RDONLY ->
  (forall p, File_Read w f p
             = Ret (f, p, 0, Some (Errorf "cannot read" (name n) ErrInvalid)))
  /\ (forall p, File_Write w f p
                = Ret (w, f, 0, Some (Errorf "cannot write" (name n) ErrInvalid))).
Proof.
  intros Hn Hu Hb Hne.
  destruct (flags_without_access_bits _ Hb) as [Hw Hr].
  assert (Hr' : canRead (flag f) = false).
  { destruct (canRead (flag f)); [|done]. by destruct Hne; apply Hr. }
  split; intros p.
  - unfold File_Read. rewrite Hn. cbn. by rewrite Hu, Hr'.
  - unfold File_Write. rewrite Hn. cbn. by rewrite Hu, Hw.
Qed.

(** ** Listings *)

Lemma string_leb_total :
  Total (fun a b : string => Is_true (String.leb a b)).
Proof.
  intros a b. destruct (String.leb_total a b) as [H|H]; rewrite H; [by left|by right].
Qed.

(** The names of a directory come out in ascending byte order, each child
    once and nothing else; a file has no names. *)
Lemma getEntryNames_spec w l n :
  heap w !! l = Some n ->
  exists names,
    getEntryNames w (Some l) = Ret names
    /\ Sorted (fun a b : string => Is_true (String.leb a b)) names
    /\ NoDup names
    /\ (forall k, k ∈ names <-> is_Some (lookup_entry n k))
    /\ len names = len_entries n.
Proof.
  intros Hl. unfold getEntryNames, lookup_entry, len_entries.
  rewrite (deref_heap _ _ _ Hl). cbn.
  destruct (entries n) as [m|].
  - eexists. split; [done|].
    assert (P : sort_Strings (map fst (map_to_list m)) ≡ₚ map fst (map_to_list m))
      by apply merge_sort_Permutation.
    split; [pose proof string_leb_total; apply Sorted_merge_sort, _|]. split; [|split].
    + rewrite P. apply NoDup_fst_map_to_list.
    + intros k. rewrite P. rewrite list_elem_of_fmap. split.
      * intros ([k' v] & -> & Hin). apply elem_of_map_to_list in Hin. by eexists.
      * intros [v Hv]. exists (k, v). split; [done|]. by apply elem_of_map_to_list.
    + unfold len. rewrite P, length_map. by rewrite length_map_to_list.
  - exists []. repeat split; try constructor.
    + intros H. by apply elem_of_nil in H.
    + by intros [? ?].
Qed.

Lemma page_spec_sublist {A} (all : list A) (i n : Z) x :
  x ∈ snd (page_spec all i n) -> x ∈ all.
Proof.
  unfold page_spec.
  destruct ((n <? 0) || (len all <=? n)); [done|].
  destruct (len all - i <=? n); cbn.
  - apply subseteq_drop.
  - intros H. by apply subseteq_take, subseteq_drop in H.
Qed.

(** X9. On an intact store a listing hands out no dangling entry: every
    [DirEntry] a call of [ReadDir] returns has a node of the heap behind it,
    so [Name], [IsDir] and [Type] return (with [Type] the directory bit or
    0), and [Info] wraps that node without error. *)
Theorem X9_ReadDir_entries_are_nodes w f k l n :
  intact w -> node f = Some l -> heap w !! l = Some n -> unlinked n = false ->
  closed f = false -> isDir n = true ->
  0 <= indexReadDir f <= len_entries n ->
  exists f' des,
    File_ReadDir w f k = Ret (f', des, None)
    /\ forall de, de ∈ des ->
         exists c cn,
           DirEntry_node de = Some c /\ heap w !! c = Some cn
           /\ DirEntry_Name w de = Ret (name cn)
           /\ DirEntry_IsDir w de = Ret (isDir cn)
           /\ DirEntry_Type w de = Ret (if isDir cn then ModeDir else 0)
           /\ DirEntry_Info de = (mkFileInfo (Some c), None).
Proof.
  intros [_ Hcl] Hn Hl Hu Hc Hd Hi.
  destruct (getEntryNames_spec w l n Hl) as (names & Hnames & _ & _ & Hin & Hlen).
  unfold File_ReadDir. rewrite (listing_guard_open w f l n Hn Hl Hu Hc Hd). cbn.
  rewrite Hn, Hnames. cbn.
  rewrite page_spec_ok by (rewrite ?length_map; unfold len in *;
                           rewrite ?length_map; try done; lia).
  cbn. destruct (page_spec _ _ _) as [i out] eqn:Hp. cbn.
  eexists _, _. split; [done|]. intros de Hde.
  assert (Hall : de ∈ map (fun nm => mkDirEntry (lookup_entry n nm)) names).
  { apply (page_spec_sublist _ (indexReadDir f) k). by rewrite Hp. }
  apply list_elem_of_fmap in Hall as (nm & -> & Hnm).
  apply Hin in Hnm as [c Hc'].
  destruct (Hcl l n nm c Hl Hc') as [cn Hcn].
  exists c, cn. unfold DirEntry_Name, DirEntry_IsDir, DirEntry_Type, DirEntry_IsDir,
    DirEntry_Info. cbn. rewrite Hc', (deref_heap _ _ _ Hcn). cbn.
  repeat split; by destruct (isDir cn).
Qed.

(** ** Temporary names *)

Lemma strings_Contains_app a b c :
  strings_Contains (a +:+ b) c = strings_Contains a c || strings_Contains b c.
Proof.
  induction a as [|x a IH]; [done|]. simpl. rewrite IH. by rewrite orb_assoc.
Qed.

Lemma strings_ReplaceAll_none s old new :
  strings_Contains s old = false -> strings_ReplaceAll s old new = s.
Proof.
  induction s as [|x s IH]; [done|]. simpl. intros H.
  apply orb_false_iff in H as [Hx Hs]. by rewrite Hx, (IH Hs).
Qed.

Lemma strings_ReplaceAll_all s old new :
  strings_Contains new old = false ->
  strings_Contains (strings_ReplaceAll s old new) old = false.
Proof.
  intros Hn. induction s as [|x s IH]; [done|]. simpl.
  destruct (Ascii.eqb x old) eqn:Hx.
  - by rewrite strings_Contains_app, Hn, IH.
  - simpl. by rewrite Hx, IH.
Qed.

Lemma string_app_assoc (a b c : string) : a +:+ (b +:+ c) = (a +:+ b) +:+ c.
Proof.
  induction a as [|x a IH]; [done|].
  change (String x (a +:+ (b +:+ c)) = String x ((a +:+ b) +:+ c)). by rewrite IH.
Qed.

Lemma string_app_nil_r (a : string) : a +:+ EmptyString = a.
Proof.
  induction a as [|x a IH]; [done|].
  change (String x (a +:+ EmptyString) = String x a). by rewrite IH.
Qed.

Lemma strings_ReplaceAll_app a b old new :
  strings_ReplaceAll (a +:+ b) old new
  = strings_ReplaceAll a old new +:+ strings_ReplaceAll b old new.
Proof.
  induction a as [|x a IH]; [done|]. simpl.
  destruct (Ascii.eqb x old); simpl; rewrite IH; [|done].
  apply string_app_assoc.
Qed.

(** X20. The name made from a pattern: a pattern without [*] gets the draw
    appended; no [*] is left when the draw has none; and with two [*] both
    are replaced by the draw, not one only. *)
Theorem X20_createRandomPathPart pattern r :
  (strings_Contains pattern "*"%char = false ->
   createRandomPathPart pattern r = pattern +:+ r)
  /\ (strings_Contains r "*"%char = false ->
      strings_Contains (createRandomPathPart pattern r) "*"%char = false)
  /\ (forall a b c,
        strings_Contains a "*"%char = false ->
        strings_Contains b "*"%char = false ->
        strings_Contains c "*"%char = false ->
        createRandomPathPart (a +:+ "*" +:+ b +:+ "*" +:+ c) r
        = a +:+ r +:+ b +:+ r +:+ c).
Proof.
  split; [|split].
  - intros H. unfold createRandomPathPart. rewrite H. simpl.
    rewrite strings_ReplaceAll_app, (strings_ReplaceAll_none _ _ _ H). simpl.
    by rewrite string_app_nil_r.
  - intros H. unfold createRandomPathPart. by apply strings_ReplaceAll_all.
  - intros a b c Ha Hb Hc. unfold createRandomPathPart.
    rewrite !strings_Contains_app. simpl. rewrite orb_true_r. simpl.
    repeat (rewrite strings_ReplaceAll_app; simpl).
    by rewrite (strings_ReplaceAll_none _ _ _ Ha), (strings_ReplaceAll_none _ _ _ Hb),
      (strings_ReplaceAll_none _ _ _ Hc).
Qed.

(** ** Paths that resolve to no target with nothing missing *)

(** X21. When a path resolves to no target with nothing missing, as the root
    path does: [Remove], [RemoveAll] and the store's [ReadDir] panic, [Mkdir]
    succeeds and changes nothing, a read-only [OpenFile] fails with NotExist,
    and [CreateTemp] and [MkdirTemp] fail with NotExist. *)
Theorem X21_no_target_nothing_missing w path p pm :
  getEntry w path = Ret (p, None, EmptyString, None) ->
  Remove w path = Panic NilDereference
  /\ (forall fuel, RemoveAll (S fuel) w path = Panic NilDereference)
  /\ FS_ReadDir w path = Panic NilDereference
  /\ Mkdir w path pm = Ret (w, None)
  /\ (forall flg, isReadOnly flg = true ->
        OpenFile w path flg pm
        = Ret (w, None, Some (Errorf "path does not exist" path ErrNotExist)))
  /\ (path <> EmptyString ->
      forall pattern draws,
        CreateTemp w path pattern draws
        = Ret (w, None, Some (Errorf "dir does not exist" path ErrNotExist))
        /\ MkdirTemp w path pattern draws
           = Ret (w, EmptyString, Some (Errorf "dir does not exist" path ErrNotExist))).
Proof.
  intros Hg. repeat split.
  - unfold Remove. by rewrite Hg.
  - intros fuel. rewrite RemoveAll_Remove. unfold Remove. by rewrite Hg.
  - unfold FS_ReadDir. by rewrite Hg.
  - unfold Mkdir. by rewrite Hg.
  - intros flg Hro. unfold OpenFile. rewrite Hg. cbn. by rewrite Hro.
  - by eapply CreateTemp_missing_directory.
  - by eapply MkdirTemp_missing_directory.
Qed.

(** ** Descriptors *)

Lemma assign_entry_nextFD w p k l w' :
  assign_entry w p k l = Ret w' -> nextFD w' = nextFD w.
Proof.
  unfold assign_entry, modify. destruct (deref w p) as [n| |]; cbn; try done.
  destruct (entries n); [|done]. destruct p; cbn; [|done].
  by intros [= <-].
Qed.

(** X22. An open that succeeds gives the handle the store's next descriptor
    and moves the counter on by one; an open that fails leaves the counter. *)
Theorem X22_OpenFile_descriptor w path flg pm w' o e :
  OpenFile w path flg pm = Ret (w', o, e) ->
  match o with
  | Some f => fd f = nextFD w /\ nextFD w' = wrap_int (nextFD w + 1)
  | None => nextFD w' = nextFD w
  end.
Proof.
  unfold OpenFile. intros H.
  destruct (getEntry w path) as [[[[parent entry] missing] err]| |]; cbn in H; [|done..].
  destruct err; [by inversion H|].
  destruct (more_than_one_missing missing); [by inversion H|].
  destruct entry as [x|].
  - destruct (deref w (Some x)) as [en| |]; cbn in H; [|done..].
    destruct (isDir en); [by inversion H|].
    destruct (canWrite flg); [|by inversion H].
    destruct (isCreate flg && isCreateMustNotExist flg); [by inversion H|].
    destruct (isTruncating flg).
    { unfold setContent, modify in H.
      destruct (deref w (Some x)); cbn in H; [|done..]. by inversion H. }
    destruct (isAppend flg); [|by inversion H].
    destruct (crws_Seek w _ 0 SeekEnd) as [[[c' ?] ?]| |]; cbn in H; [|done..].
    by inversion H.
  - destruct (isReadOnly flg); [by inversion H|].
    destruct (isCreate flg); [|by inversion H].
    destruct (deref w parent); cbn in H; [|done..].
    destruct (alloc w (new_file w missing pm)) as [w1 l] eqn:Ha.
    destruct (assign_entry w1 parent missing l) as [w2| |] eqn:Has; cbn in H; [|done..].
    inversion H; subst. cbn. apply assign_entry_nextFD in Has. rewrite Has.
    unfold alloc in Ha. by inversion Ha.
Qed.


(** ** Further properties, each tried on a store *)

(** X1. On an open handle with a content engine over a live file, [Seek]
    from the start, from the cursor or from the end moves the cursor to the
    position asked for and returns it when that position is not negative,
    and returns the invalid-argument error and changes nothing when it is;
    an unknown [whence] rewinds the cursor to 0 without error.  [ReadAt] and
    [WriteAt] at a negative offset return the same error and change nothing. *)
Theorem X1_Seek_and_negative_offsets :
  forall w f l n c off,
    node f = Some l -> heap w !! l = Some n -> unlinked n = false ->
    closed f = false -> crws f = Some c -> owner c = Some l ->
    let moved p := Ret (with_crws f (Some (mkCrws (Some l) p)), p, None) in
    let refused := Ret (f, 0, Some (Bare ErrInvalid)) in
    File_Seek w f off SeekStart = (if off <? 0 then refused else moved off)
    /\ (- 2 ^ 63 <= pos c + off <= max_int ->
        File_Seek w f off SeekCurrent
        = (if pos c + off <? 0 then refused else moved (pos c + off)))
    /\ (- 2 ^ 63 <= len (content n) + off <= max_int ->
        File_Seek w f off SeekEnd
        = (if len (content n) + off <? 0 then refused
           else moved (len (content n) + off)))
    /\ (forall wh, wh <> SeekStart -> wh <> SeekCurrent -> wh <> SeekEnd ->
        File_Seek w f off wh = moved 0)
    /\ (off < 0 -> canRead (flag f) = true ->
        forall p, File_ReadAt w f p off = Ret (f, p, 0, Some (Bare ErrInvalid)))
    /\ (off < 0 -> canWrite (flag f) = true -> isAppend (flag f) = false ->
        forall p, File_WriteAt w f p off = Ret (w, f, 0, Some (Bare ErrInvalid))).
Proof.
  intros w f l n c off Hn Hl Hu Hc Hcr Ho moved refused.
  destruct (File_Seek_spec w f l n c off Hn Hl Hu Hc Hcr Ho) as (H1 & H2 & H3 & H4).
  assert (Hd : deref w (node f) = Ret n) by (rewrite Hn; by apply deref_heap).
  repeat split; try done.
  - intros Hoff. by apply (negative_offsets_refused w f n off).
  - intros Hoff. by apply (negative_offsets_refused w f n off).
Qed.

Lemma X1_witness :
  File_Seek demo_world demo_handle (-3) SeekStart
    = Ret (demo_handle, 0, Some (Bare ErrInvalid))
  /\ File_Seek demo_world demo_handle (-3) SeekCurrent
     = Ret (with_crws demo_handle (Some (mkCrws (Some 1%nat) 2)), 2, None)
  /\ File_Seek demo_world demo_handle (-3) SeekEnd
     = Ret (demo_handle, 0, Some (Bare ErrInvalid))
  /\ File_Seek demo_world demo_handle (-3) 7
     = Ret (with_crws demo_handle (Some (mkCrws (Some 1%nat) 0)), 0, None)
  /\ File_ReadAt demo_world demo_handle (zeros 2) (-3)
     = Ret (demo_handle, zeros 2, 0, Some (Bare ErrInvalid))
  /\ File_WriteAt demo_world demo_handle [x58] (-3)
     = Ret (demo_world, demo_handle, 0, Some (Bare ErrInvalid)).
Proof.
  pose proof (X1_Seek_and_negative_offsets demo_world demo_handle 1%nat demo_file
                demo_crws (-3) eq_refl eq_refl eq_refl eq_refl eq_refl eq_refl)
    as (H1 & H2 & H3 & H4 & H5 & H6).
  split; [exact H1|]. split; [apply H2; vm_compute; split; discriminate|].
  split; [apply H3; vm_compute; split; discriminate|].
  split; [apply H4; discriminate|].
  split; [apply H5; [reflexivity|reflexivity]|].
  apply H6; reflexivity.
Defined.

Lemma X2_witness :
  exists f',
    File_Seek demo_world demo_handle 3 SeekStart = Ret (f', 3, None)
    /\ File_Read demo_world f' (zeros 4) = Panic SliceBoundsOutOfRange.
Proof.
  exact (X2_Read_beyond_the_end_panics demo_world demo_handle 1%nat demo_file
           demo_crws 3 (zeros 4) eq_refl eq_refl eq_refl eq_refl eq_refl eq_refl
           eq_refl eq_refl eq_refl).
Defined.

Lemma X3_witness :
  exists w' f',
    File_Write demo_world rewound_handle [x58; x59] = Ret (w', f', 2, None)
    /\ File_ReadAt w' demo_handle (zeros 2) 0
       = Ret (with_crws demo_handle (Some (mkCrws (Some 1%nat) 2)),
              [x58; x59], 2, None).
Proof.
  exact (X3_Write_then_ReadAt_reads_back demo_world rewound_handle demo_handle
           [x58; x59] (zeros 2) 1%nat demo_file (mkCrws (Some 1%nat) 0) demo_crws
           eq_refl eq_refl eq_refl eq_refl eq_refl eq_refl eq_refl
           eq_refl eq_refl eq_refl eq_refl eq_refl
           ltac:(vm_compute; discriminate) ltac:(vm_compute; discriminate)
           eq_refl eq_refl).
Defined.

Lemma X4_witness :
  File_Write demo_world demo_handle [] =
    Ret (with_heap demo_world
           (<[1%nat := set_content demo_file [x61; x62; x00; x00; x00]]>
              (heap demo_world)),
         demo_handle, 0, None).
Proof.
  exact (X4_Write_of_nothing_can_grow demo_world demo_handle 1%nat demo_file
           demo_crws eq_refl eq_refl eq_refl eq_refl eq_refl eq_refl eq_refl
           ltac:(vm_compute; split; discriminate)).
Defined.

Lemma X5_witness :
  exists w' f' fi,
    File_Write demo_world demo_handle [x58] = Ret (w', f', 1, None)
    /\ File_Stat w' f' = Ret (fi, None)
    /\ FileInfo_Size w' fi = Ret 6.
Proof.
  exact (X5_Size_after_Write demo_world demo_handle [x58] 1%nat demo_file
           demo_crws eq_refl eq_refl eq_refl eq_refl eq_refl eq_refl eq_refl
           eq_refl ltac:(vm_compute; discriminate) ltac:(vm_compute; discriminate)).
Defined.

Lemma X6_witness :
  File_Close demo_world demo_handle = Ret (with_closed demo_handle true, None)
  /\ File_Close demo_world (with_closed demo_handle true)
     = Ret (with_closed demo_handle true,
            Some (Errorf "file closed" "a" ErrClosed))
  /\ File_Stat demo_world (with_closed demo_handle true)
     = Ret (mkFileInfo (Some 1%nat), None).
Proof.
  pose proof (X6_Close_once demo_world demo_handle demo_file eq_refl eq_refl)
    as (H1 & H2 & H3).
  split; [exact H1|]. split; [exact H2|].
  exact (proj2 (proj2 (proj2 (proj2 (proj2 (proj2 (H3 eq_refl))))))).
Defined.

(** X7. A flag word with neither access bit set can never write, and can
    read only if it is exactly [O_RDONLY]: with any other bit set as well,
    such as Create, both [Read] and [Write] on the handle are refused. *)
Theorem X7_flags_without_access_bits :
  forall w f n,
    deref w (node f) = Ret n -> unlinked n = false ->
    Z.land (flag f) 3 = 0 ->
    canWrite (flag f) = false
    /\ (canRead (flag f) = true <-> flag f = O_RDONLY)
    /\ (flag f <> O_RDONLY ->
        (forall p, File_Read w f p
                   = Ret (f, p, 0, Some (Errorf "cannot read" (name n) ErrInvalid)))
        /\ (forall p, File_Write w f p
                      = Ret (w, f, 0,
                             Some (Errorf "cannot write" (name n) ErrInvalid)))).
Proof.
  intros w f n Hn Hu Hb.
  destruct (flags_without_access_bits _ Hb) as [Hw Hr].
  split; [done|]. split; [done|].
  intros Hne. by apply handle_without_access.
Qed.

Lemma X7_witness :
  canWrite O_CREATE = false /\ canRead O_CREATE = false
  /\ File_Read demo_world create_only_handle (zeros 2)
     = Ret (create_only_handle, zeros 2, 0,
            Some (Errorf "cannot read" "a" ErrInvalid))
  /\ File_Write demo_world create_only_handle [x58]
     = Ret (demo_world, create_only_handle, 0,
            Some (Errorf "cannot write" "a" ErrInvalid)).
Proof.
  pose proof (X7_flags_without_access_bits demo_world create_only_handle demo_file
                eq_refl eq_refl eq_refl) as (H1 & _ & H3).
  split; [exact H1|]. split; [reflexivity|].
  destruct (H3 ltac:(discriminate)) as [Hr Hw].
  exact (conj (Hr (zeros 2)) (Hw [x58])).
Defined.

(** X8. On an open handle over a live directory, [Readdirnames] with a
    negative count returns the names in ascending byte order, each child
    once and nothing else, as many as the directory has children, and
    leaves the handle as it was. *)
Theorem X8_Readdirnames_sorted_and_complete :
  forall w f k l n,
    node f = Some l -> heap w !! l = Some n -> unlinked n = false ->
    closed f = false -> isDir n = true -> k < 0 ->
    exists names,
      File_Readdirnames w f k = Ret (f, names, None)
      /\ Sorted (fun a b : string => Is_true (String.leb a b)) names
      /\ NoDup names
      /\ (forall nm, nm ∈ names <-> is_Some (lookup_entry n nm))
      /\ len names = len_entries n.
Proof.
  intros w f k l n Hn Hl Hu Hc Hd Hk.
  destruct (getEntryNames_spec w l n Hl) as (names & Hnames & Hs & Hnd & Hin & Hlen).
  exists names. split; [|done].
  unfold File_Readdirnames. rewrite (listing_guard_open w f l n Hn Hl Hu Hc Hd).
  cbn. rewrite Hn, Hnames. cbn. unfold page.
  destruct (Z.ltb_spec k 0); [|lia]. cbn. by destruct f.
Qed.

Lemma X8_witness :
  exists names,
    File_Readdirnames demo_dir_world demo_dir_handle (-1)
    = Ret (demo_dir_handle, names, None)
    /\ Sorted (fun a b : string => Is_true (String.leb a b)) names
    /\ NoDup names
    /\ (forall nm, nm ∈ names <-> is_Some (lookup_entry demo_dir nm))
    /\ len names = len_entries demo_dir.
Proof.
  exact (X8_Readdirnames_sorted_and_complete demo_dir_world demo_dir_handle (-1)
           1%nat demo_dir eq_refl eq_refl eq_refl eq_refl eq_refl eq_refl).
Defined.

Lemma X9_witness :
  exists f' des,
    File_ReadDir (initial_store "/" 0) root_handle (-1) = Ret (f', des, None)
    /\ forall de, de ∈ des ->
         exists c cn,
           DirEntry_node de = Some c /\ heap (initial_store "/" 0) !! c = Some cn
           /\ DirEntry_Name (initial_store "/" 0) de = Ret (name cn)
           /\ DirEntry_IsDir (initial_store "/" 0) de = Ret (isDir cn)
           /\ DirEntry_Type (initial_store "/" 0) de
              = Ret (if isDir cn then ModeDir else 0)
           /\ DirEntry_Info de = (mkFileInfo (Some c), None).
Proof.
  exact (X9_ReadDir_entries_are_nodes (initial_store "/" 0) root_handle (-1) 0%nat
           _ (initial_store_intact "/" 0) eq_refl eq_refl eq_refl eq_refl eq_refl
           ltac:(vm_compute; split; discriminate)).
Defined.

Lemma X10_witness :
  MkdirAll demo_world "/x/y" 7 = Ret (grown_store, None)
  /\ MkdirAll grown_store "/x/y" 7 = Ret (grown_store, None).
Proof.
  assert (H : MkdirAll demo_world "/x/y" 7 = Ret (grown_store, None))
    by (vm_compute; reflexivity).
  exact (conj H (X10_MkdirAll_twice demo_world "/x/y" 7 grown_store H)).
Defined.

Lemma X11_witness :
  MkdirAll demo_world "/x/y" 7 = Ret (grown_store, None)
  /\ grows demo_world grown_store
  /\ getEntry grown_store "/a" = Ret (Some 0%nat, Some 1%nat, EmptyString, None).
Proof.
  assert (H : MkdirAll demo_world "/x/y" 7 = Ret (grown_store, None))
    by (vm_compute; reflexivity).
  destruct (X11_MkdirAll_only_adds demo_world "/x/y" 7 grown_store None H)
    as [G S].
  exact (conj H (conj G (S "/a" (Some 0%nat) 1%nat eq_refl))).
Defined.

(** X12. On an intact store [MkdirAll] and [Mkdir] return, with or without
    an error, whatever the path, and leave an intact store. *)
Theorem X12_making_directories_keeps_the_store_intact :
  forall w path pm,
    intact w ->
    (exists w' e, MkdirAll w path pm = Ret (w', e) /\ intact w')
    /\ (exists w' e, Mkdir w path pm = Ret (w', e) /\ intact w').
Proof.
  intros w path pm Hi. split.
  - by apply MkdirAll_keeps_intact.
  - by apply Mkdir_keeps_intact.
Qed.

Lemma X12_witness :
  (exists w' e, MkdirAll (initial_store "/" 0) "/a/b" 7 = Ret (w', e) /\ intact w')
  /\ (exists w' e, Mkdir (initial_store "/" 0) "/a/b" 7 = Ret (w', e) /\ intact w').
Proof.
  exact (X12_making_directories_keeps_the_store_intact (initial_store "/" 0) "/a/b" 7
           (initial_store_intact "/" 0)).
Defined.

Lemma X13_witness :
  exists w' o e,
    OpenFile (initial_store "/" 0) "/tmp/a" (Z.lor O_RDWR O_CREATE) 438
    = Ret (w', o, e)
    /\ intact w'
    /\ match o with
       | Some f => e = None /\ sound_handle w' f /\ closed f = false
                   /\ flag f = Z.lor O_RDWR O_CREATE
       | None => e <> None /\ w' = initial_store "/" 0
       end.
Proof.
  exact (X13_OpenFile_on_an_intact_store (initial_store "/" 0) "/tmp/a"
           (Z.lor O_RDWR O_CREATE) 438 (initial_store_intact "/" 0)).
Defined.

Lemma X14_witness :
  ((exists p, getEntry (initial_store "/" 0) "/" = Ret (p, None, EmptyString, None)
              /\ Remove (initial_store "/" 0) "/" = Panic NilDereference)
   \/ (exists w' e, Remove (initial_store "/" 0) "/" = Ret (w', e) /\ intact w'))
  /\ ((exists p, getEntry (initial_store "/" 0) "/tmp"
                 = Ret (p, None, EmptyString, None)
                 /\ Remove (initial_store "/" 0) "/tmp" = Panic NilDereference)
      \/ (exists w' e, Remove (initial_store "/" 0) "/tmp" = Ret (w', e)
                       /\ intact w')).
Proof.
  exact (conj (X14_Remove_on_an_intact_store (initial_store "/" 0) "/"
                 (initial_store_intact "/" 0))
              (X14_Remove_on_an_intact_store (initial_store "/" 0) "/tmp"
                 (initial_store_intact "/" 0))).
Defined.



Lemma X18_witness :
  exists w1 f w2 f2,
    OpenFile demo_world "/a" (Z.lor O_WRONLY O_APPEND) 0 = Ret (w1, Some f, None)
    /\ File_Write w1 f [x58] = Ret (w2, f2, 1, None)
    /\ getContent w2 (Some 1%nat) = Ret [x61; x62; x58].
Proof.
  exact (X18_Append_then_Write demo_world "/a" (Z.lor O_WRONLY O_APPEND) 0
           (Some 0%nat) 1%nat demo_file [x58] eq_refl eq_refl eq_refl eq_refl
           eq_refl eq_refl eq_refl eq_refl ltac:(vm_compute; discriminate)).
Defined.

Lemma X19_witness :
  exists w1 f fi,
    OpenFile demo_world "/a" (Z.lor O_RDWR O_TRUNC) 0 = Ret (w1, Some f, None)
    /\ crws f = Some (mkCrws (Some 1%nat) 0)
    /\ getContent w1 (Some 1%nat) = Ret []
    /\ File_Stat w1 f = Ret (fi, None)
    /\ FileInfo_Size w1 fi = Ret 0.
Proof.
  exact (X19_Truncate_empties demo_world "/a" (Z.lor O_RDWR O_TRUNC) 0
           (Some 0%nat) 1%nat demo_file eq_refl eq_refl eq_refl eq_refl
           eq_refl eq_refl eq_refl).
Defined.

Lemma X20_witness :
  createRandomPathPart "testfile" "abcdefgh" = "testfileabcdefgh"
  /\ strings_Contains (createRandomPathPart "blah*blah*blah*" "abcdefgh") "*"%char
     = false
  /\ createRandomPathPart "x*y*z" "abcdefgh" = "xabcdefghyabcdefghz".
Proof.
  destruct (X20_createRandomPathPart "testfile" "abcdefgh") as (H1 & _ & _).
  destruct (X20_createRandomPathPart "blah*blah*blah*" "abcdefgh") as (_ & H2 & _).
  destruct (X20_createRandomPathPart EmptyString "abcdefgh") as (_ & _ & H3).
  exact (conj (H1 eq_refl) (conj (H2 eq_refl) (H3 "x" "y" "z" eq_refl eq_refl eq_refl))).
Defined.

Lemma X21_witness :
  Remove demo_world "/" = Panic NilDereference
  /\ (forall fuel, RemoveAll (S fuel) demo_world "/" = Panic NilDereference)
  /\ FS_ReadDir demo_world "/" = Panic NilDereference
  /\ Mkdir demo_world "/" 0 = Ret (demo_world, None)
  /\ (forall flg, isReadOnly flg = true ->
        OpenFile demo_world "/" flg 0
        = Ret (demo_world, None, Some (Errorf "path does not exist" "/" ErrNotExist)))
  /\ ("/" <> EmptyString ->
      forall pattern draws,
        CreateTemp demo_world "/" pattern draws
        = Ret (demo_world, None, Some (Errorf "dir does not exist" "/" ErrNotExist))
        /\ MkdirTemp demo_world "/" pattern draws
           = Ret (demo_world, EmptyString,
                  Some (Errorf "dir does not exist" "/" ErrNotExist))).
Proof.
  exact (X21_no_target_nothing_missing demo_world "/" (Some 0%nat) 0 eq_refl).
Defined.

Lemma X22_witness :
  OpenFile demo_world "/a" O_RDONLY 0 = Ret (opened_store, Some opened_handle, None)
  /\ fd opened_handle = nextFD demo_world
  /\ nextFD opened_store = wrap_int (nextFD demo_world + 1).
Proof.
  assert (H : OpenFile demo_world "/a" O_RDONLY 0
              = Ret (opened_store, Some opened_handle, None))
    by (vm_compute; reflexivity).
  exact (conj H (X22_OpenFile_descriptor demo_world "/a" O_RDONLY 0 opened_store
                   (Some opened_handle) None H)).
Defined.

(** X23. The name [MkdirTemp] returns is the directory asked for (the
    temporary directory when none is given) joined with the pattern filled
    by one of the draws, and it resolved to no node in the store the call
    started from. *)
Theorem X23_MkdirTemp_returns_an_absent_name :
  forall w dir pattern draws w' tDir,
    MkdirTemp w dir pattern draws = Ret (w', tDir, None) ->
    exists r parent missing,
      r ∈ draws
      /\ tDir = filepath_Join [if String.eqb dir EmptyString then TempDir else dir;
                               createRandomPathPart pattern r]
      /\ getEntry w tDir = Ret (parent, None, missing, None).
Proof.
  intros w dir pattern draws w' tDir H. unfold MkdirTemp in H.
  set (d := if String.eqb dir EmptyString then TempDir else dir) in *.
  destruct (getEntry w d) as [[[[parent entry] missing] err]| |]; cbn in H; [|done..].
  destruct err; [done|]. destruct entry as [x|]; [|done].
  destruct (deref w (Some x)) as [en| |]; cbn in H; [|done..].
  destruct (negb (isDir en)); [done|].
  by apply MkdirTemp_loop_returns_an_absent_name in H.
Qed.

Lemma X23_witness :
  MkdirTemp (initial_store "/" 0) EmptyString "f*" ["abcdefgh"]
    = Ret (temp_store, "/tmp/fabcdefgh", None)
  /\ exists r parent missing,
       r ∈ ["abcdefgh"]
       /\ "/tmp/fabcdefgh"
          = filepath_Join [if String.eqb EmptyString EmptyString then TempDir
                           else EmptyString;
                           createRandomPathPart "f*" r]
       /\ getEntry (initial_store "/" 0) "/tmp/fabcdefgh"
          = Ret (parent, None, missing, None).
Proof.
  assert (H : MkdirTemp (initial_store "/" 0) EmptyString "f*" ["abcdefgh"]
              = Ret (temp_store, "/tmp/fabcdefgh", None))
    by (vm_compute; reflexivity).
  exact (conj H (X23_MkdirTemp_returns_an_absent_name (initial_store "/" 0)
                   EmptyString "f*" ["abcdefgh"] temp_store "/tmp/fabcdefgh" H)).
Defined.

(** X24. [Mkdir], [Remove] and [OpenFile] leave the store as it was, counter
    of descriptors included, whenever they return an error. *)
Theorem X24_failures_leave_the_store :
  forall w path w',
    (forall pm e, Mkdir w path pm = Ret (w', Some e) -> w' = w)
    /\ (forall e, Remove w path = Ret (w', Some e) -> w' = w)
    /\ (forall flg pm o e, OpenFile w path flg pm = Ret (w', o, Some e) ->
          w' = w /\ o = None).
Proof.
  intros w path w'. split; [|split].
  - intros pm e. apply Mkdir_failure_keeps_the_store.
  - intros e H. unfold Remove in H.
    destruct (getEntry w path) as [[[[parent entry] missing] err]| |]; cbn in H;
      [|done..].
    destruct err; [by inversion H|].
    destruct (negb (String.eqb missing EmptyString)); [by inversion H|].
    destruct (deref w entry) as [en| |]; cbn in H; [|done..].
    destruct (isDir en); [destruct (len_entries en =? 0); [|by inversion H]|];
      destruct (detach w parent entry); cbn in H; done.
  - intros flg pm o e H. unfold OpenFile in H.
    destruct (getEntry w path) as [[[[parent entry] missing] err]| |]; cbn in H;
      [|done..].
    destruct err; [by inversion H|].
    destruct (more_than_one_missing missing); [by inversion H|].
    destruct entry as [x|].
    + destruct (deref w (Some x)) as [en| |]; cbn in H; [|done..].
      destruct (isDir en); [done|].
      destruct (canWrite flg); [|done].
      destruct (isCreate flg && isCreateMustNotExist flg); [by inversion H|].
      destruct (isTruncating flg).
      { unfold setContent, modify in H.
        destruct (deref w (Some x)); cbn in H; done. }
      destruct (isAppend flg); [|done].
      destruct (crws_Seek w _ 0 SeekEnd) as [[[c' ?] ?]| |]; cbn in H; done.
    + destruct (isReadOnly flg); [by inversion H|].
      destruct (isCreate flg); [|by inversion H].
      destruct (deref w parent); cbn in H; [|done..].
      destruct (alloc w (new_file w missing pm)) as [w1 l].
      destruct (assign_entry w1 parent missing l); cbn in H; done.
Qed.

Lemma X24_witness :
  Mkdir demo_world "/a" 7
    = Ret (demo_world, Some (Errorf "path exists" "/a" ErrExist))
  /\ Remove demo_world "/zz"
     = Ret (demo_world, Some (Errorf "path does not exist" "/zz" ErrNotExist))
  /\ demo_world = demo_world.
Proof.
  assert (H1 : Mkdir demo_world "/a" 7
               = Ret (demo_world, Some (Errorf "path exists" "/a" ErrExist)))
    by (vm_compute; reflexivity).
  assert (H2 : Remove demo_world "/zz"
               = Ret (demo_world,
                      Some (Errorf "path does not exist" "/zz" ErrNotExist)))
    by (vm_compute; reflexivity).
  destruct (X24_failures_leave_the_store demo_world "/a" demo_world) as (M & _ & _).
  exact (conj H1 (conj H2 (M 7 _ H1))).
Defined.

(** ** Removal *)

(** What [detach] leaves when the target is not its own parent. *)
Lemma detach_result w pl e pn en :
  heap w !! pl = Some pn -> heap w !! e = Some en -> e <> pl ->
  detach w (Some pl) (Some e)
  = Ret (with_heap w
           (<[pl := set_entries pn (delete (name en) <$> entries pn)]>
              (<[e := set_unlinked en true]> (heap w)))).
Proof.
  intros Hp He Hne. unfold detach, delete_entry, modify.
  rewrite (deref_heap _ _ _ Hp). cbn. rewrite (deref_heap _ _ _ He). cbn.
  unfold deref. cbn. rewrite lookup_insert_eq. cbn.
  rewrite lookup_insert_ne by done. by rewrite Hp.
Qed.

(** A walk that never asks for [key] does not see the removal of [key]. *)
Lemma getEntry_walk_without parts :
  forall w w' key cur c,
    key ∉ parts ->
    (forall l n, heap w !! l = Some n ->
       exists n', heap w' !! l = Some n' /\ isDir n' = isDir n
                  /\ forall k, k <> key -> lookup_entry n' k = lookup_entry n k) ->
    getEntry_walk w cur parts = Ret (inr c) ->
    getEntry_walk w' cur parts = Ret (inr c).
Proof.
  induction parts as [|part rest IH]; intros w w' key cur c Hk S H;
    cbn in H |- *; [done|].
  apply not_elem_of_cons in Hk as [Hne Hk].
  destruct cur as [lc|]; [|done]. unfold deref in H |- *.
  destruct (heap w !! lc) as [cn|] eqn:Hc; [|done]. cbn in H.
  destruct (S _ _ Hc) as (cn' & -> & _ & Hl). cbn.
  rewrite (Hl part) by done.
  destruct (lookup_entry cn part) as [x|]; [|done].
  destruct (heap w !! x) as [en|] eqn:Hx; [|done]. cbn in H.
  destruct (S _ _ Hx) as (en' & -> & Hd & _). cbn. rewrite Hd.
  destruct (isDir en); cbn in H |- *; [|done].
  by apply (IH w w' key).
Qed.

Lemma path_segments_wd w w' path :
  wd w' = wd w -> path_segments w' path = path_segments w path.
Proof. intros H. unfold path_segments, getAbsolutePath. by rewrite H. Qed.

(** X25. [Remove] undoes the name: when a valid path leads, through
    directories none of which bears the last segment's name, to a file or an
    empty directory filed under its own name, [Remove] succeeds, marks the
    node unlinked and keeps its content, and afterwards the path resolves
    to no node, [Stat] and a second [Remove] fail with NotExist. *)
Theorem X25_Remove_then_not_found w path parts last pl pn e en :
  ValidPath path = true -> path_segments w path = Some (parts, last) ->
  last <> EmptyString -> last ∉ parts ->
  getEntry_walk w (root w) parts = Ret (inr (Some pl)) ->
  heap w !! pl = Some pn -> lookup_entry pn last = Some e ->
  heap w !! e = Some en -> name en = last ->
  (isDir en = true -> len_entries en = 0) ->
  let gone := Some (Errorf "path does not exist" path ErrNotExist) in
  exists w' en',
    Remove w path = Ret (w', None)
    /\ heap w' !! e = Some en' /\ unlinked en' = true /\ content en' = content en
    /\ getEntry w' path = Ret (Some pl, None, last, None)
    /\ Stat w' path = Ret (mkFileInfo None, gone)
    /\ Remove w' path = Ret (w', gone).
Proof.
  intros Hv Hs Hl Hnp Hw Hp Hk He Hn Hz gone.
  assert (Hne : e <> pl).
  { intros ->. rewrite Hp in He. inversion He; subst en.
    unfold lookup_entry in Hk. unfold isDir, len_entries in Hz.
    destruct (entries pn) as [m|]; [|done].
    specialize (Hz eq_refl).
    assert (m = ∅) by (apply map_size_empty_iff; lia). subst m.
    by rewrite lookup_empty in Hk. }
  set (w' := with_heap w
               (<[pl := set_entries pn (delete (name en) <$> entries pn)]>
                  (<[e := set_unlinked en true]> (heap w)))).
  assert (Hg : getEntry w path = Ret (Some pl, Some e, EmptyString, None)).
  { rewrite (getEntry_by_segments w path parts last Hv Hs), Hw. cbn.
    rewrite (deref_heap _ _ _ Hp). cbn. by rewrite Hk. }
  assert (Hr : Remove w path = Ret (w', None)).
  { unfold Remove. rewrite Hg. cbn. rewrite (deref_heap _ _ _ He). cbn.
    rewrite (detach_result w pl e pn en Hp He Hne).
    destruct (isDir en) eqn:Hd; [|done].
    rewrite (Hz eq_refl). done. }
  assert (Hg' : getEntry w' path = Ret (Some pl, None, last, None)).
  { rewrite (getEntry_by_segments w' path parts last Hv)
      by (by rewrite (path_segments_wd w w')).
    change (root w') with (root w).
    rewrite (getEntry_walk_without parts w w' last (root w) (Some pl) Hnp); [|
      |exact Hw].
    - cbn. unfold deref. cbn. rewrite lookup_insert_eq. cbn.
      unfold lookup_entry in Hk |- *. cbn.
      destruct (entries pn) as [m|]; [|done]. cbn.
      rewrite Hn. by rewrite lookup_delete_eq.
    - intros l n Hln. cbn.
      destruct (decide (l = pl)) as [->|H1].
      + rewrite lookup_insert_eq. rewrite Hp in Hln. inversion Hln; subst n.
        eexists. split; [done|]. unfold isDir, lookup_entry. cbn.
        destruct (entries pn) as [m|]; [|done]. cbn. split; [done|].
        intros k Hkk. rewrite Hn. by rewrite lookup_delete_ne.
      + rewrite lookup_insert_ne by done.
        destruct (decide (l = e)) as [->|H2].
        * rewrite lookup_insert_eq. rewrite He in Hln. inversion Hln; subst n.
          eexists. split; [done|]. done.
        * rewrite lookup_insert_ne by done. eauto. }
  exists w', (set_unlinked en true).
  split; [done|]. split.
  { cbn. rewrite lookup_insert_ne by done. by rewrite lookup_insert_eq. }
  split; [done|]. split; [done|]. split; [done|].
  assert (Hb : negb (String.eqb last EmptyString) = true).
  { destruct (String.eqb_spec last EmptyString); done. }
  split.
  - unfold Stat. rewrite Hg'. cbn. by rewrite Hb.
  - unfold Remove. rewrite Hg'. cbn. by rewrite Hb.
Qed.

Lemma X25_witness :
  exists w' en',
    Remove demo_world "/a" = Ret (w', None)
    /\ heap w' !! 1%nat = Some en' /\ unlinked en' = true
    /\ content en' = content demo_file
    /\ getEntry w' "/a" = Ret (Some 0%nat, None, "a", None)
    /\ Stat w' "/a"
       = Ret (mkFileInfo None, Some (Errorf "path does not exist" "/a" ErrNotExist))
    /\ Remove w' "/a"
       = Ret (w', Some (Errorf "path does not exist" "/a" ErrNotExist)).
Proof.
  exact (X25_Remove_then_not_found demo_world "/a" [] "a" 0%nat demo_root 1%nat
           demo_file eq_refl eq_refl ltac:(discriminate)
           ltac:(apply not_elem_of_nil) eq_refl eq_refl eq_refl eq_refl eq_refl
           ltac:(discriminate)).
Defined.
